(** * DragGAN renderer ([viz/renderer_pickable.py]): a shallow embedding

    The development follows the layout of the Python module:

    - Python arithmetic and tensor indexing helpers ([round], slices,
      [torch.min]);
    - the point tracker and the convergence test of the motion-supervision
      loop of [Renderer._render_drag_impl], as pure functions over integer
      pixel coordinates;
    - the [Renderer] object, its [res] dictionary and the methods
      [get_network], [init_network], [_render_drag_impl] and [render], in a
      state-and-exception monad.

    Tensor entries are finite numbers on one common scale.  The norm of a
    feature difference, which the tracker minimises, is computed by torch
    in float32: it is a collaborator, and only the order of its values is
    used.  The direction of the convergence test has integer entries, and
    its norm is compared through its square.  The networks, the autograd
    engine, Adam, bilinear interpolation, numpy's matrix inverse and the
    checkpoint loaders are collaborators as well and appear with the norm
    as fields of a library record. *)

From stdpp Require Import base option list strings gmap.
From Stdlib Require Import ZArith QArith Reals Lra Lia.

Local Open Scope Z_scope.

(** ** Exceptions *)

Inductive Exn :=
  | LoadError (pkl : string)        (* whatever the checkpoint loader raised *)
  | NameError                       (* 'Cannot infer model type from pkl name!' *)
  | BuildError                      (* Generator(...) / load_state_dict failed *)
  | KeyError (key : string)
  | LinAlgError
  | AttributeError (attr : string)
  | IndexError
  | ZeroDivisionError
  | RuntimeError (what : string)
  | ValueError (what : string).

Inductive outcome (A : Type) :=
  | Returns (a : A)
  | Raises (e : Exn).
Arguments Returns {A} a.
Arguments Raises {A} e.

(** ** Python numbers *)

(** [round(n / d)] for [0 < d]: Python rounds halves to the even neighbour. *)
Definition py_round_div (n d : Z) : Z :=
  let q := n `div` d in
  let m := n `mod` d in
  if 2 * m <? d then q
  else if d <? 2 * m then q + 1
  else if Z.even q then q else q + 1.

(** [round(r / 512 * h)], the radii of lines 385 and 408. *)
Definition scaled_radius (r h : Z) : Z := py_round_div (r * h) 512.

(** ** Tensors *)

Definition Point := (Z * Z)%type.        (* [row, column] *)
Definition Vec := list Z.                (* one feature vector, C channels *)
Definition FeatureMap := Z -> Z -> Vec.  (* (1, C, H, W), read at [row, column] *)

(** A slice bound of [lo:hi] on a dimension of size [n]: a negative bound
    counts from the end, and both are clamped to the dimension. *)
Definition slice_index (n i : Z) : Z :=
  if i <? 0 then Z.max (i + n) 0 else Z.min i n.

Definition slice_range (n lo hi : Z) : list Z :=
  seqZ (slice_index n lo) (slice_index n hi - slice_index n lo).

(** The coordinates of [t[:, :, up:down, left:right]] in the order of
    [view(1, -1)], row after row. *)
Definition patch_coords (h w up down left right : Z) : list Point :=
  y ← slice_range h up down; x ← slice_range w left right; [(y, x)].

(** An index is unpacked into a 64-bit integer. *)
Definition fits_int64 (i : Z) : bool := (- 2 ^ 63 <=? i) && (i <? 2 ^ 63).

(** Indexing one position, [t[:, :, py, px]].  A dimension has fewer than
    [2 ^ 63] entries, so an index within it fits; an index that does not
    fit is refused before it is compared with the dimension. *)
Definition index_dim (n i : Z) : outcome Z :=
  if (0 <=? i) && (i <? n) then Returns i
  else if (- n <=? i) && (i <? 0) then Returns (i + n)
  else if fits_int64 i then Raises IndexError
  else Raises (ValueError "Overflow when unpacking long long").

Definition feature_at (fm : FeatureMap) (h w : Z) (py px : Z) : outcome Vec :=
  match index_dim h py, index_dim w px with
  | Returns y, Returns x => Returns (fm y x)
  | Raises e, _ | _, Raises e => Raises e
  end.

(** The exact squared Euclidean norm of [a - b] over the channel dimension. *)
Fixpoint l2sq (a b : Vec) : Z :=
  match a, b with
  | x :: a', y :: b' => (x - y) * (x - y) + l2sq a' b'
  | _, _ => 0
  end.

(** [torch.min(v, -1)] on a flat vector: the least value and the index of
    its first occurrence; an empty reduction raises [IndexError]. *)
Fixpoint min_scan (best : Z) (best_i i : nat) (l : list Z) : Z * nat :=
  match l with
  | [] => (best, best_i)
  | x :: l' =>
      if x <? best then min_scan x i (S i) l'
      else min_scan best best_i (S i) l'
  end.

Definition torch_min (l : list Z) : outcome (Z * nat) :=
  match l with
  | [] => Raises IndexError
  | x :: l' => Returns (min_scan x 0%nat 1%nat l')
  end.

(** ** Point tracking (lines 383-395)

    [norm a b] is [torch.linalg.norm(a - b)] over the channels, as torch
    computes it in float32 for the feature vector [a] of a position and the
    reference [b]. *)

Definition track_point (norm : Vec -> Vec -> Z) (feat_resize : FeatureMap)
    (h w r : Z) (ref : Vec) (point : Point) : outcome Point :=
  let up := Z.max (point.1 - r) 0 in
  let down := Z.min (point.1 + r + 1) h in
  let left := Z.max (point.2 - r) 0 in
  let right := Z.min (point.2 + r + 1) w in
  let L2 := (fun p : Point => norm (feat_resize p.1 p.2) ref)
              <$> patch_coords h w up down left right in
  match torch_min L2 with
  | Raises e => Raises e
  | Returns (_, idx) =>
      let width := right - left in
      if width =? 0 then Raises ZeroDivisionError
      else Returns (Z.of_nat idx `div` width + up,
                    Z.of_nat idx `mod` width + left)
  end.

(** The loop [for j, point in enumerate(points): ...; points[j] = point].
    The list is updated in place, so what the loop leaves behind when an
    iteration raises is returned next to the exception. *)
Fixpoint track_loop (norm : Vec -> Vec -> Z) (feat_resize : FeatureMap)
    (h w r : Z) (feat_refs : list Vec) (n j : nat) (points : list Point)
    : list Point * option Exn :=
  match n with
  | O => (points, None)
  | S n' =>
      match points !! j with
      | None => (points, None)
      | Some point =>
          match feat_refs !! j with
          | None => (points, Some IndexError)
          | Some ref =>
              match track_point norm feat_resize h w r ref point with
              | Raises e => (points, Some e)
              | Returns point' =>
                  track_loop norm feat_resize h w r feat_refs n' (S j)
                             (<[j := point']> points)
              end
          end
      end
  end.

Definition track_points (norm : Vec -> Vec -> Z) (feat_resize : FeatureMap)
    (h w r2 : Z) (feat_refs : list Vec) (points : list Point)
    : list Point * option Exn :=
  track_loop norm feat_resize h w (scaled_radius r2 h) feat_refs
             (length points) 0 points.

(** ** Convergence test of the motion-supervision loop (lines 401-406) *)

Definition direction (point target : Point) : Z * Z :=
  (target.2 - point.2, target.1 - point.1).

Definition norm_sq (d : Z * Z) : Z := d.1 * d.1 + d.2 * d.2.

(** [torch.linalg.norm(direction) > max(2 / 512 * h, 2)].  The threshold is
    [Z.max (2 * h) 1024 / 512], which is positive, so both sides are squared. *)
Definition beyond_stop_threshold (h : Z) (point target : Point) : bool :=
  Z.max (2 * h) (2 * 512) * Z.max (2 * h) (2 * 512)
    <? 512 * 512 * norm_sq (direction point target).

(** [torch.linalg.norm(direction) > 1] *)
Definition needs_supervision (point target : Point) : bool :=
  1 <? norm_sq (direction point target).

Fixpoint stop_loop (h : Z) (targets : list Point) (j : nat)
    (points : list Point) (stop : bool) : bool * option Exn :=
  match points with
  | [] => (stop, None)
  | point :: rest =>
      match targets !! j with
      | None => (stop, Some IndexError)
      | Some target =>
          stop_loop h targets (S j) rest
                    (if beyond_stop_threshold h point target then false else stop)
      end
  end.

Definition motion_stop (h : Z) (points targets : list Point) : bool * option Exn :=
  stop_loop h targets 0 points true.

(** The same quantities over the reals, as the specification words them. *)
Definition euclid (point target : Point) : R :=
  sqrt (IZR (norm_sq (direction point target))).

Definition stop_threshold (h : Z) : R := Rmax (2 / 512 * IZR h) 2.

Definition feature_distance (a b : Vec) : R := sqrt (IZR (l2sq a b)).

(** ** Strings *)

(** Python's [needle in hay] on strings. *)
Fixpoint contains (needle hay : string) : bool :=
  if String.prefix needle hay then true
  else match hay with
       | EmptyString => false
       | String _ rest => contains needle rest
       end.

(** ** Networks and latent codes *)

Definition V := list Z.                  (* one latent vector, D entries *)
Definition Tensor := list Z.             (* a tensor the module never indexes *)
Definition Matrix := list (list Q).

Definition eye3 : Matrix :=
  [[1%Q; 0%Q; 0%Q]; [0%Q; 1%Q; 0%Q]; [0%Q; 0%Q; 1%Q]].

(** [self.w] has shape (1, D) or (1, L, D); [self.w0] always (1, L, D). *)
Inductive LatentCode :=
  | WSingle (v : V)
  | WPlus (layers : list V).

(** A parameter tensor together with its [.grad]. *)
Record Param := {
  data : LatentCode;
  grad : option LatentCode;
}.

Record AdamState := {
  adam_steps : nat;
  exp_avg : option LatentCode;
  exp_avg_sq : option LatentCode;
}.

Record Adam := {
  lr : Q;
  adam_state : AdamState;
}.

(** A generator as the module uses it.  [transform] is the buffer
    [G.synthesis.input.transform], present only in networks that have one;
    the synthesis functions return the image and the list of feature maps. *)
Record Generator := {
  img_resolution : Z;
  num_ws : nat;
  has_noise_const : bool;
  transform : option Matrix;
  mapping : V -> Q -> option Z -> list V;
  style_forward : V -> V;
  net_mean_latent : Z -> V;
  synthesis : option Matrix -> list V -> Q -> string -> outcome (Tensor * list Tensor);
  synthesis_old : list V -> V -> outcome (Tensor * list Tensor);
}.

Definition set_img_resolution (r : Z) (g : Generator) : Generator :=
  let 'Build_Generator _ a b c d e f i j := g in Build_Generator r a b c d e f i j.

Definition set_transform (m : option Matrix) (g : Generator) : Generator :=
  let 'Build_Generator r a b _ d e f i j := g in Build_Generator r a b m d e f i j.

(** What [loss.backward()] differentiates: the points still under motion
    supervision with their targets, the mask term when the mask qualifies,
    and the regulariser. *)
Record Loss := {
  loss_points : list (Point * Point);
  loss_r1 : Z;
  loss_feature_idx : nat;
  loss_mask : option (Tensor * Q * FeatureMap);
  loss_reg : Q;
  loss_ws : list V;
  loss_w0 : list V;
}.

(** The collaborators of the module. *)
Record Lib := {
  randn : Z -> V;                                 (* RandomState(seed).randn(1, 512) *)
  torch_load : string -> option Generator;        (* old checkpoints, weights loaded *)
  load_network_pkl : string -> option (gmap string Generator);
  build_generator : string -> Generator -> option Generator;
  np_linalg_inv : Matrix -> option Matrix;        (* None: LinAlgError *)
  interpolate : Tensor -> Z -> Z -> FeatureMap;   (* F.interpolate(.., [h, w]) *)
  linalg_norm : Vec -> Vec -> Z;                  (* torch.linalg.norm(a - b), float32 *)
  mask_min : Tensor -> Z;
  mask_max : Tensor -> Z;
  autograd : Generator -> LatentCode -> Loss -> LatentCode;
  adam_step : Adam -> Param -> LatentCode * AdamState;
  quantize : Tensor -> bool -> Q -> Tensor;       (* lines 430-434 *)
}.

(** ** The renderer object *)

(** An attribute that is absent is [None]; an attribute that holds Python's
    [None] is [Some None].  [_device], [_pinned_bufs], [_cmaps] and
    [_net_layers] hold no session data and are left out.  [G] is the network
    object as this renderer sees it: [init_network] overwrites the resolution
    and the transform each time it fetches the network from [_networks], so
    the copy in the cache is never observed after a mutation. *)
Record Renderer := {
  _pkl_data : gmap string (Exn + gmap string Generator);
  _networks : gmap string (Exn + Generator);
  _is_old : bool;
  _is_timing : bool;
  mean_latent : option V;
  pkl : option string;
  G : option Generator;
  w0_seed : option Z;
  w_plus : option bool;
  w0 : option (list V);
  w : option Param;
  w_optim : option Adam;
  feat_refs : option (option (list Vec));
  points0_pt : option (option (list Point));
  feat0_resize : option FeatureMap;
  points : option (list Point);
}.

Definition new_renderer : Renderer :=
  {| _pkl_data := ∅; _networks := ∅; _is_old := false; _is_timing := false;
     mean_latent := None; pkl := None; G := None; w0_seed := None;
     w_plus := None; w0 := None; w := None; w_optim := None;
     feat_refs := None; points0_pt := None; feat0_resize := None;
     points := None |}.

Definition set__pkl_data x (s : Renderer) :=
  let 'Build_Renderer _ b c d e f g h i j k l m n o p := s in Build_Renderer x b c d e f g h i j k l m n o p.
Definition set__networks x (s : Renderer) :=
  let 'Build_Renderer a _ c d e f g h i j k l m n o p := s in Build_Renderer a x c d e f g h i j k l m n o p.
Definition set__is_old x (s : Renderer) :=
  let 'Build_Renderer a b _ d e f g h i j k l m n o p := s in Build_Renderer a b x d e f g h i j k l m n o p.
Definition set__is_timing x (s : Renderer) :=
  let 'Build_Renderer a b c _ e f g h i j k l m n o p := s in Build_Renderer a b c x e f g h i j k l m n o p.
Definition set_mean_latent x (s : Renderer) :=
  let 'Build_Renderer a b c d _ f g h i j k l m n o p := s in Build_Renderer a b c d x f g h i j k l m n o p.
Definition set_pkl x (s : Renderer) :=
  let 'Build_Renderer a b c d e _ g h i j k l m n o p := s in Build_Renderer a b c d e x g h i j k l m n o p.
Definition set_G x (s : Renderer) :=
  let 'Build_Renderer a b c d e f _ h i j k l m n o p := s in Build_Renderer a b c d e f x h i j k l m n o p.
Definition set_w0_seed x (s : Renderer) :=
  let 'Build_Renderer a b c d e f g _ i j k l m n o p := s in Build_Renderer a b c d e f g x i j k l m n o p.
Definition set_w_plus x (s : Renderer) :=
  let 'Build_Renderer a b c d e f g h _ j k l m n o p := s in Build_Renderer a b c d e f g h x j k l m n o p.
Definition set_w0 x (s : Renderer) :=
  let 'Build_Renderer a b c d e f g h i _ k l m n o p := s in Build_Renderer a b c d e f g h i x k l m n o p.
Definition set_w x (s : Renderer) :=
  let 'Build_Renderer a b c d e f g h i j _ l m n o p := s in Build_Renderer a b c d e f g h i j x l m n o p.
Definition set_w_optim x (s : Renderer) :=
  let 'Build_Renderer a b c d e f g h i j k _ m n o p := s in Build_Renderer a b c d e f g h i j k x m n o p.
Definition set_feat_refs x (s : Renderer) :=
  let 'Build_Renderer a b c d e f g h i j k l _ n o p := s in Build_Renderer a b c d e f g h i j k l x n o p.
Definition set_points0_pt x (s : Renderer) :=
  let 'Build_Renderer a b c d e f g h i j k l m _ o p := s in Build_Renderer a b c d e f g h i j k l m x o p.
Definition set_feat0_resize x (s : Renderer) :=
  let 'Build_Renderer a b c d e f g h i j k l m n _ p := s in Build_Renderer a b c d e f g h i j k l m n x p.
Definition set_points x (s : Renderer) :=
  let 'Build_Renderer a b c d e f g h i j k l m n o _ := s in Build_Renderer a b c d e f g h i j k l m n o x.

(** ** The result dictionary *)

Inductive ImageVal :=
  | PilImage (px : Tensor)        (* Image.fromarray(img.cpu().numpy()) *)
  | TensorImage (px : Tensor)     (* a uint8 torch tensor *)
  | NumpyImage (px : Tensor).     (* after to_cpu(..).detach().numpy() *)

Inductive ErrorVal :=
  | Captured (e : Exn)            (* a CapturedException *)
  | ErrorText (msg : string).     (* str(res.error) *)

Definition describe (e : Exn) : string :=
  match e with
  | LoadError p => "ModelLoadError: cannot load " +:+ p
  | NameError => "NameError: Cannot infer model type from pkl name!"
  | BuildError => "ModelLoadError: cannot build the generator"
  | KeyError k => "KeyError: " +:+ k
  | LinAlgError => "numpy.linalg.LinAlgError: Singular matrix"
  | AttributeError a => "AttributeError: " +:+ a
  | IndexError => "IndexError: list index out of range"
  | ZeroDivisionError => "ZeroDivisionError: integer division or modulo by zero"
  | RuntimeError m => "RuntimeError: " +:+ m
  | ValueError m => "ValueError: " +:+ m
  end.

Record Res := {
  res_init_net : option bool;
  res_img_resolution : option Z;
  res_num_ws : option nat;
  res_has_noise : option bool;
  res_has_input_transform : option bool;
  res_error : option ErrorVal;
  res_points : option (list Point);
  res_stop : option bool;
  res_image : option ImageVal;
}.

Definition EasyDict : Res :=
  {| res_init_net := None; res_img_resolution := None; res_num_ws := None;
     res_has_noise := None; res_has_input_transform := None;
     res_error := None; res_points := None; res_stop := None;
     res_image := None |}.

Definition set_res_init_net x (r : Res) :=
  let 'Build_Res _ b c d e f g h i := r in Build_Res x b c d e f g h i.
Definition set_res_img_resolution x (r : Res) :=
  let 'Build_Res a _ c d e f g h i := r in Build_Res a x c d e f g h i.
Definition set_res_num_ws x (r : Res) :=
  let 'Build_Res a b _ d e f g h i := r in Build_Res a b x d e f g h i.
Definition set_res_has_noise x (r : Res) :=
  let 'Build_Res a b c _ e f g h i := r in Build_Res a b c x e f g h i.
Definition set_res_has_input_transform x (r : Res) :=
  let 'Build_Res a b c d _ f g h i := r in Build_Res a b c d x f g h i.
Definition set_res_error x (r : Res) :=
  let 'Build_Res a b c d e _ g h i := r in Build_Res a b c d e x g h i.
Definition set_res_points x (r : Res) :=
  let 'Build_Res a b c d e f _ h i := r in Build_Res a b c d e f x h i.
Definition set_res_stop x (r : Res) :=
  let 'Build_Res a b c d e f g _ i := r in Build_Res a b c d e f g x i.
Definition set_res_image x (r : Res) :=
  let 'Build_Res a b c d e f g h _ := r in Build_Res a b c d e f g h x.

(** ** Call arguments: the keyword arguments of [render], [init_network]
    and [_render_drag_impl], with the defaults of the signatures. *)
Record Args := {
  arg_pkl : string;
  arg_w0_seed : Z;
  arg_w_plus : bool;
  arg_reset_w : bool;
  arg_noise_mode : string;
  arg_trunc_psi : Q;
  arg_trunc_cutoff : option Z;
  arg_input_transform : option Matrix;
  arg_lr : Q;
  arg_points : list Point;
  arg_targets : list Point;
  arg_mask : option Tensor;
  arg_lambda_mask : Q;
  arg_reg : Q;
  arg_feature_idx : nat;
  arg_r1 : Z;
  arg_r2 : Z;
  arg_img_scale_db : Q;
  arg_img_normalize : bool;
  arg_is_drag : bool;
  arg_reset : bool;
  arg_to_pil : bool;
}.

Definition default_args (pkl : string) : Args :=
  {| arg_pkl := pkl; arg_w0_seed := 0; arg_w_plus := true;
     arg_reset_w := false; arg_noise_mode := "const";
     arg_trunc_psi := 7 # 10; arg_trunc_cutoff := None;
     arg_input_transform := None; arg_lr := 1 # 1000;
     arg_points := []; arg_targets := []; arg_mask := None;
     arg_lambda_mask := 10 # 1; arg_reg := 0 # 1; arg_feature_idx := 5;
     arg_r1 := 3; arg_r2 := 12; arg_img_scale_db := 0 # 1;
     arg_img_normalize := false; arg_is_drag := false; arg_reset := false;
     arg_to_pil := true |}.

(** ** The state-and-exception monad of the methods

    A method runs on the renderer ([self]), on the result dictionary it was
    handed ([res]) and on a journal of the calls made so far.  The journal
    is not an attribute of the Python object: it records which methods and
    collaborators were entered, in order. *)

Inductive Event :=
  | CallInitNetwork
  | CallRenderDragImpl
  | CallSynthesis (ws : list V)
  | ZeroGrad
  | Backward
  | OptimStep
  | PostMortem (e : Exn).

Record World := {
  self : Renderer;
  res : Res;
  journal : list Event;
}.

Definition M (A : Type) : Type := World -> outcome A * World.

Definition ret {A} (a : A) : M A := fun wd => (Returns a, wd).

Definition bind {A B} (m : M A) (k : A -> M B) : M B :=
  fun wd => match m wd with
            | (Returns a, wd') => k a wd'
            | (Raises e, wd') => (Raises e, wd')
            end.

Definition raise {A} (e : Exn) : M A := fun wd => (Raises e, wd).

(** [try: m except: handler] *)
Definition try_except (m : M unit) (handler : Exn -> M unit) : M unit :=
  fun wd => match m wd with
            | (Returns a, wd') => (Returns a, wd')
            | (Raises e, wd') => handler e wd'
            end.

Definition get_self : M Renderer := fun wd => (Returns (self wd), wd).
Definition get_res : M Res := fun wd => (Returns (res wd), wd).

Definition modify_self (f : Renderer -> Renderer) : M unit :=
  fun wd => (Returns tt, {| self := f (self wd); res := res wd; journal := journal wd |}).

Definition modify_res (f : Res -> Res) : M unit :=
  fun wd => (Returns tt, {| self := self wd; res := f (res wd); journal := journal wd |}).

Definition record_event (ev : Event) : M unit :=
  fun wd => (Returns tt, {| self := self wd; res := res wd; journal := journal wd ++ [ev] |}).

(** Reading an attribute that may be absent. *)
Definition getattr {A} (name : string) (field : Renderer -> option A) : M A :=
  fun wd => match field (self wd) with
            | Some a => (Returns a, wd)
            | None => (Raises (AttributeError name), wd)
            end.

Definition lift {A} (o : outcome A) : M A := fun wd => (o, wd).

Definition reraise (e : option Exn) : M unit :=
  match e with Some e => raise e | None => ret tt end.

Notation "x <- m ;; k" := (bind m (fun x => k))
  (at level 100, m at next level, k at level 200, right associativity).
Notation "m ;;; k" := (bind m (fun _ => k))
  (at level 100, k at level 200, right associativity).

(** ** [get_network] (lines 146-203) *)

Definition _ignore_timing : M unit := modify_self (set__is_timing false).

(** The first [try] block.  A loader that raises leaves a
    [CapturedException] as the cached data. *)
Definition load_data (lib : Lib) (pkl : string) : Exn + gmap string Generator :=
  if contains "stylegan2-old" pkl then
    match torch_load lib pkl with
    | Some net => inr {["G_ema" := net]}
    | None => inl (LoadError pkl)
    end
  else
    match load_network_pkl lib pkl with
    | Some d => inr d
    | None => inl (LoadError pkl)
    end.

(** The second [try] block: the architecture is chosen from the name of the
    pickle, then the network is rebuilt from the stored one. *)
Definition build_net (lib : Lib) (pkl : string) (orig_net : Generator)
    : M (Exn + Generator) :=
  if contains "stylegan2" pkl || contains "stylegan3" pkl
     || contains "stylegan_human" pkl
  then
    if contains "stylegan2-old" pkl then
      modify_self (set_mean_latent (Some (net_mean_latent orig_net 4096))) ;;;
      ret (inr orig_net)
    else
      match build_generator lib pkl orig_net with
      | Some net => ret (inr net)
      | None => ret (inl BuildError)
      end
  else ret (inl NameError).

(** The cache [_networks] is keyed by the stored network object, of which
    there is one for each pickle in [_pkl_data]: the key is the pickle. *)
Definition get_network (lib : Lib) (pkl key : string) : M Generator :=
  s <- get_self ;;
  modify_self (set__is_old (contains "stylegan2-old" pkl)) ;;;
  data <- match _pkl_data s !! pkl with
          | Some data => ret data
          | None =>
              let data := load_data lib pkl in
              modify_self (fun s => set__pkl_data (<[pkl := data]> (_pkl_data s)) s) ;;;
              _ignore_timing ;;;
              ret data
          end ;;
  match data with
  | inl e => raise e
  | inr d =>
      match d !! key with
      | None => raise (KeyError key)
      | Some orig_net =>
          s <- get_self ;;
          net <- match _networks s !! pkl with
                 | Some net => ret net
                 | None =>
                     net <- build_net lib pkl orig_net ;;
                     modify_self (fun s => set__networks (<[pkl := net]> (_networks s)) s) ;;;
                     _ignore_timing ;;;
                     ret net
                 end ;;
          match net with
          | inl e => raise e
          | inr g => ret g
          end
      end
  end.

(** ** [init_network] (lines 234-291) *)

Definition update_G (f : Generator -> Generator) : M unit :=
  modify_self (fun s => set_G (f <$> G s) s).

(** Lines 259-267.  A singular matrix leaves [m] at the identity and a
    captured exception in [res.error]. *)
Definition set_input_transform (lib : Lib) (input_transform : option Matrix) : M unit :=
  m <- match input_transform with
       | None => ret eye3
       | Some t =>
           match np_linalg_inv lib t with
           | Some m => ret m
           | None => modify_res (set_res_error (Some (Captured LinAlgError))) ;;; ret eye3
           end
       end ;;
  update_G (set_transform (Some m)).

Definition init_network (lib : Lib) (a : Args) : M unit :=
  record_event CallInitNetwork ;;;
  modify_self (set_pkl (Some (arg_pkl a))) ;;;
  g <- get_network lib (arg_pkl a) "G_ema" ;;
  modify_self (set_G (Some g)) ;;;
  is_old <- (s <- get_self ;; ret (_is_old s)) ;;
  (if is_old then
     update_G (set_img_resolution 512) ;;;
     modify_res (set_res_img_resolution (Some 512)) ;;;
     modify_res (set_res_num_ws (Some 16%nat)) ;;;
     modify_res (set_res_has_input_transform (Some false))
   else
     modify_res (set_res_img_resolution (Some (img_resolution g))) ;;;
     modify_res (set_res_num_ws (Some (num_ws g))) ;;;
     modify_res (set_res_has_noise (Some (has_noise_const g))) ;;;
     modify_res (set_res_has_input_transform (Some (bool_decide (is_Some (transform g)))))) ;;;
  r <- get_res ;;
  (if default false (res_has_input_transform r)
   then set_input_transform lib (arg_input_transform a)
   else ret tt) ;;;
  modify_self (set_w0_seed (Some (arg_w0_seed a))) ;;;
  let z := randn lib (arg_w0_seed a) in
  let w := if is_old then replicate 16 (style_forward g z)
           else mapping g z (arg_trunc_psi a) (arg_trunc_cutoff a) in
  modify_self (set_w0 (Some w)) ;;;
  modify_self (set_w_plus (Some (arg_w_plus a))) ;;;
  latent <- (if arg_w_plus a then ret (WPlus w)
             else match w with
                  | v :: _ => ret (WSingle v)
                  | [] => raise IndexError
                  end) ;;
  modify_self (set_w (Some {| data := latent; grad := None |})) ;;;
  modify_self (set_w_optim (Some {| lr := arg_lr a;
      adam_state := {| adam_steps := 0; exp_avg := None; exp_avg_sq := None |} |})) ;;;
  modify_self (set_feat_refs (Some None)) ;;;
  modify_self (set_points0_pt (Some None)).

(** ** [_render_drag_impl] (lines 321-439) *)

(** Lines 347-350: [self.w], repeated six times when it is a single vector,
    gives the first six layers; [self.w0] gives the layers from the sixth on. *)
Definition broadcast (latent : LatentCode) : list V :=
  match latent with
  | WSingle v => replicate 6 v
  | WPlus layers => layers
  end.

Definition effective_ws (latent : LatentCode) (w0 : list V) : list V :=
  take 6 (broadcast latent) ++ drop 6 w0.

(** Lines 351-356: an explicit reset, or a number of points that differs
    from the stored one, clears [feat_refs] and [points0_pt]. *)
Definition reset_requested (s : Renderer) (a : Args) : bool :=
  match points s with
  | Some old =>
      if bool_decide (length (arg_points a) ≠ length old) then true
      else arg_reset a
  | None => arg_reset a
  end.

Definition reset_block (a : Args) : M unit :=
  s <- get_self ;;
  if reset_requested s a then
    modify_self (set_feat_refs (Some None)) ;;;
    modify_self (set_points0_pt (Some None))
  else ret tt.

(** Lines 377-379: the references are appended one by one. *)
Fixpoint collect_refs (feat0 : FeatureMap) (h w : Z) (points : list Point)
    (acc : list Vec) : list Vec * option Exn :=
  match points with
  | [] => (acc, None)
  | point :: rest =>
      match feature_at feat0 h w point.1 point.2 with
      | Returns v => collect_refs feat0 h w rest (acc ++ [v])
      | Raises e => (acc, Some e)
      end
  end.

(** The pairs whose direction is longer than one pixel (line 406). *)
Definition supervised (points targets : list Point) : list (Point * Point) :=
  filter (fun pt : Point * Point => needs_supervision pt.1 pt.2 = true)
         (zip points targets).

Definition zero_grad : M unit :=
  record_event ZeroGrad ;;;
  modify_self (fun s => set_w ((fun p => {| data := data p; grad := None |}) <$> w s) s).

Definition backward (lib : Lib) (g : Generator) (loss : Loss) : M unit :=
  record_event Backward ;;;
  modify_self (fun s =>
    set_w ((fun p => {| data := data p;
                        grad := Some (autograd lib g (data p) loss) |}) <$> w s) s).

Definition optim_step (lib : Lib) : M unit :=
  record_event OptimStep ;;;
  optim <- getattr "w_optim" w_optim ;;
  p <- getattr "w" w ;;
  let '(latent, st) := adam_step lib optim p in
  modify_self (set_w (Some {| data := latent; grad := grad p |})) ;;;
  modify_self (set_w_optim (Some {| lr := lr optim; adam_state := st |})).

(** Lines 368-427, the branch [if is_drag].  The sampling grids and the loss
    value are the business of [autograd]; the flag [res.stop] is set to
    [True] and then lowered by the loop, whose result [motion_stop] gives
    together with the exception that may have ended it. *)
Definition drag_step (lib : Lib) (a : Args) (g : Generator) (ws w0 : list V)
    (feat : list Tensor) : M unit :=
  let h := img_resolution g in
  let w := img_resolution g in
  raw <- lift (match feat !! arg_feature_idx a with
               | Some t => Returns t
               | None => Raises IndexError
               end) ;;
  let feat_resize := interpolate lib raw h w in
  cached <- getattr "feat_refs" feat_refs ;;
  refs <- match cached with
          | Some refs => ret refs
          | None =>
              let feat0 := interpolate lib raw h w in
              modify_self (set_feat0_resize (Some feat0)) ;;;
              let '(refs, e) := collect_refs feat0 h w (arg_points a) [] in
              modify_self (set_feat_refs (Some (Some refs))) ;;;
              reraise e ;;;
              modify_self (set_points0_pt (Some (Some (arg_points a)))) ;;;
              ret refs
          end ;;
  let '(tracked, e) :=
    track_points (linalg_norm lib) feat_resize h w (arg_r2 a) refs (arg_points a) in
  modify_self (set_points (Some tracked)) ;;;
  reraise e ;;;
  modify_res (set_res_points (Some tracked)) ;;;
  modify_res (set_res_stop (Some true)) ;;;
  let '(stop, e) := motion_stop h tracked (arg_targets a) in
  modify_res (set_res_stop (Some stop)) ;;;
  reraise e ;;;
  mask_term <- match arg_mask a with
               | None => ret None
               | Some mask =>
                   if (mask_min lib mask =? 0) && (mask_max lib mask =? 1) then
                     feat0 <- getattr "feat0_resize" feat0_resize ;;
                     ret (Some (mask, arg_lambda_mask a, feat0))
                   else ret None
               end ;;
  let loss := {| loss_points := supervised tracked (arg_targets a);
                 loss_r1 := scaled_radius (arg_r1 a) h;
                 loss_feature_idx := arg_feature_idx a;
                 loss_mask := mask_term;
                 loss_reg := arg_reg a;
                 loss_ws := ws;
                 loss_w0 := w0 |} in
  if stop then ret tt
  else
    getattr "w_optim" w_optim ;;;
    zero_grad ;;; backward lib g loss ;;; optim_step lib.

Definition render_drag_body (lib : Lib) (a : Args) : M unit :=
  g <- getattr "G" G ;;
  p <- getattr "w" w ;;
  w0 <- getattr "w0" w0 ;;
  let ws := effective_ws (data p) w0 in
  reset_block a ;;;
  modify_self (set_points (Some (arg_points a))) ;;;
  s <- get_self ;;
  out <- (if _is_old s then
            ml <- getattr "mean_latent" mean_latent ;;
            record_event (CallSynthesis ws) ;;;
            lift (synthesis_old g ws ml)
          else
            record_event (CallSynthesis ws) ;;;
            lift (synthesis g (transform g) ws (arg_trunc_psi a) (arg_noise_mode a))) ;;
  (if arg_is_drag a then drag_step lib a g ws w0 out.2 else ret tt) ;;;
  let px := quantize lib out.1 (arg_img_normalize a) (arg_img_scale_db a) in
  modify_res (set_res_image
    (Some (if arg_to_pil a then PilImage px else TensorImage px))).

(** The decorator [@iex] ([ipdb.launch_ipdb_on_exception]): an exception of
    the body opens the post-mortem debugger and is not raised again. *)
Definition iex (body : M unit) : M unit :=
  try_except body (fun e => record_event (PostMortem e)).

Definition _render_drag_impl (lib : Lib) (a : Args) : M unit :=
  record_event CallRenderDragImpl ;;;
  iex (render_drag_body lib a).

(** ** [render] (lines 104-144) *)

Definition needs_init (s : Renderer) (a : Args) : bool :=
  match G s with None => true | Some _ => false end
  || match pkl s with Some p => bool_decide (p ≠ arg_pkl a) | None => false end
  || match w0_seed s with Some z => bool_decide (z ≠ arg_w0_seed a) | None => false end
  || match w_plus s with Some b => bool_decide (b ≠ arg_w_plus a) | None => false end
  || arg_reset_w a.

Definition render_try (lib : Lib) (a : Args) : M unit :=
  s <- get_self ;;
  let init_net := needs_init s a in
  modify_res (set_res_init_net (Some init_net)) ;;;
  (if init_net then init_network lib a else ret tt) ;;;
  _render_drag_impl lib a.

(** [self.to_cpu(x).detach().numpy()]: [_get_pinned_buf] reads [x.shape]
    and [x.dtype], which a PIL image does not have. *)
Definition to_cpu_numpy (img : ImageVal) : outcome ImageVal :=
  match img with
  | TensorImage px => Returns (NumpyImage px)
  | PilImage _ => Raises (AttributeError "shape")
  | NumpyImage _ => Raises (RuntimeError "torch.empty(): numpy dtype")
  end.

Definition error_text (v : ErrorVal) : string :=
  match v with
  | Captured e => describe e
  | ErrorText msg => msg
  end.

(** The statements after the [try]: they run outside of it, so what they
    raise leaves [render]. *)
Definition render_finish : M Res :=
  r <- get_res ;;
  (match res_image r with
   | Some img =>
       v <- lift (to_cpu_numpy img) ;;
       modify_res (set_res_image (Some v))
   | None => ret tt
   end) ;;;
  r <- get_res ;;
  (match res_error r with
   | Some v => modify_res (set_res_error (Some (ErrorText (error_text v))))
   | None => ret tt
   end) ;;;
  get_res.

Definition render (lib : Lib) (a : Args) : M Res :=
  modify_self (set__is_timing true) ;;;
  modify_res (fun _ => EasyDict) ;;;
  try_except (render_try lib a)
             (fun e => modify_res (set_res_error (Some (Captured e)))) ;;;
  render_finish.

(** A renderer on which [render] is called for the first time. *)
Definition fresh_world : World :=
  {| self := new_renderer; res := EasyDict; journal := [] |}.

(** ** A small installation, for running the methods

    One StyleGAN2-like pickle without an input transform, one StyleGAN3-like
    pickle with one, 16x16 images, eight layers; every other name fails to
    load.  The inverse is the exact inverse of a 3x3 rational matrix. *)

Definition det3 (m : Matrix) : option Q :=
  match m with
  | [[a; b; c]; [d; e; f]; [g; h; i]] =>
      Some (a * (e * i - f * h) - b * (d * i - f * g) + c * (d * h - e * g))%Q
  | _ => None
  end.

Definition inv3 (m : Matrix) : option Matrix :=
  match m, det3 m with
  | [[a; b; c]; [d; e; f]; [g; h; i]], Some dt =>
      if Qeq_bool dt 0 then None
      else Some [[(e * i - f * h) / dt; (c * h - b * i) / dt; (b * f - c * e) / dt];
                 [(f * g - d * i) / dt; (a * i - c * g) / dt; (c * d - a * f) / dt];
                 [(d * h - e * g) / dt; (b * g - a * h) / dt; (a * e - b * d) / dt]]%Q
  | _, _ => None
  end.

Definition demo_forward (ws : list V) : outcome (Tensor * list Tensor) :=
  Returns (concat ws, replicate 6 (concat ws)).

Definition demo_generator (tr : option Matrix) : Generator :=
  {| img_resolution := 16; num_ws := 8; has_noise_const := true;
     transform := tr;
     mapping := fun z _ _ => replicate 8 z;
     style_forward := fun z => z;
     net_mean_latent := fun _ => [];
     synthesis := fun _ ws _ _ => demo_forward ws;
     synthesis_old := fun ws _ => demo_forward ws |}.

Definition shift (latent : LatentCode) : LatentCode :=
  match latent with
  | WSingle v => WSingle (map Z.succ v)
  | WPlus layers => WPlus (map (map Z.succ) layers)
  end.

(** A norm without rounding error for the examples: the Euclidean norm with
    twenty binary digits after the point, rounded down. *)
Definition exact_norm (a b : Vec) : Z := Z.sqrt (2 ^ 40 * l2sq a b).

Definition demo_lib : Lib :=
  {| randn := fun seed => [seed; seed + 1];
     torch_load := fun _ => None;
     load_network_pkl := fun p =>
       if String.eqb p "stylegan2-demo.pkl" then Some {["G_ema" := demo_generator None]}
       else if String.eqb p "stylegan3-demo.pkl" then Some {["G_ema" := demo_generator (Some eye3)]}
       else None;
     build_generator := fun _ g => Some g;
     np_linalg_inv := inv3;
     interpolate := fun _ _ w => fun y x => [y * w + x];
     linalg_norm := exact_norm;
     mask_min := fun _ => 0;
     mask_max := fun _ => 1;
     autograd := fun _ latent _ => latent;
     adam_step := fun optim p =>
       (shift (data p),
        {| adam_steps := S (adam_steps (adam_state optim));
           exp_avg := grad p; exp_avg_sq := grad p |});
     quantize := fun img _ _ => img |}.

Definition sg2 : string := "stylegan2-demo.pkl".
Definition sg3 : string := "stylegan3-demo.pkl".


(** ** The search window *)

(** The window of half-width [r] around [p], clipped to a [h] by [w] image. *)
Definition in_window (h w r : Z) (p q : Point) : Prop :=
  (p.1 - r <= q.1 <= p.1 + r /\ 0 <= q.1 < h) /\
  (p.2 - r <= q.2 <= p.2 + r /\ 0 <= q.2 < w).

Definition window_nonempty (h w r : Z) (p : Point) : bool :=
  (Z.max (p.1 - r) 0 <? Z.min (p.1 + r + 1) h)
  && (Z.max (p.2 - r) 0 <? Z.min (p.2 + r + 1) w).

(** Row-major order of [view(1, -1)]. *)
Definition scan_le (q q' : Point) : Prop :=
  q.1 < q'.1 \/ (q.1 = q'.1 /\ q.2 <= q'.2).

(** Every point of the list has a search window that meets the image. *)
Definition windows_nonempty (h w r : Z) (points : list Point) : bool :=
  forallb (window_nonempty h w r) points.

(** Two feature maps on a 16x16 image: one with a distinct value at every
    position, one that repeats along each row with period four. *)
Definition ramp : FeatureMap := fun y x => [y * 16 + x].
Definition stripes : FeatureMap := fun y x => [x `mod` 4; y].

(** ** Reading a run *)

(** What a computation appends to the journal. *)
Definition events_of {A} (m : M A) (wd : World) : list Event :=
  drop (length (journal wd)) (journal (m wd).2).

(** The session attributes other than the recorded pickle name. *)
Definition session_untouched (s s' : Renderer) : Prop :=
  G s' = G s /\ w0_seed s' = w0_seed s /\ w_plus s' = w_plus s /\
  w0 s' = w0 s /\ w s' = w s /\ w_optim s' = w_optim s /\
  feat_refs s' = feat_refs s /\ points0_pt s' = points0_pt s /\
  feat0_resize s' = feat0_resize s /\ points s' = points s.

(** In per-layer mode [self.w] has as many layers as [self.w0]. *)
Definition latent_shape_ok (latent : LatentCode) (w0 : list V) : Prop :=
  match latent with
  | WSingle _ => True
  | WPlus layers => length layers = length w0
  end.

(** ** Calls used in the examples *)

Definition first_call : Args :=
  {| arg_pkl := sg2; arg_w0_seed := 0; arg_w_plus := true;
     arg_reset_w := false; arg_noise_mode := "const";
     arg_trunc_psi := 7 # 10; arg_trunc_cutoff := None;
     arg_input_transform := None; arg_lr := 1 # 1000;
     arg_points := [(3, 3)]; arg_targets := [(3, 9)]; arg_mask := None;
     arg_lambda_mask := 10 # 1; arg_reg := 0 # 1; arg_feature_idx := 5;
     arg_r1 := 3; arg_r2 := 12; arg_img_scale_db := 0 # 1;
     arg_img_normalize := false; arg_is_drag := true; arg_reset := false;
     arg_to_pil := false |}.

Definition with_pkl (x : string) (a : Args) : Args :=
  let 'Build_Args _ b c d e f g h i j k l m n o p q r s t u v := a in
  Build_Args x b c d e f g h i j k l m n o p q r s t u v.
Definition with_targets (x : list Point) (a : Args) : Args :=
  let 'Build_Args a0 b c d e f g h i j _ l m n o p q r s t u v := a in
  Build_Args a0 b c d e f g h i j x l m n o p q r s t u v.
Definition with_is_drag (x : bool) (a : Args) : Args :=
  let 'Build_Args a0 b c d e f g h i j k l m n o p q r s _ u v := a in
  Build_Args a0 b c d e f g h i j k l m n o p q r s x u v.
Definition with_reset (x : bool) (a : Args) : Args :=
  let 'Build_Args a0 b c d e f g h i j k l m n o p q r s t _ v := a in
  Build_Args a0 b c d e f g h i j k l m n o p q r s t x v.


(** The world after a first [render], a drag step on the StyleGAN2 pickle. *)
Definition ready_world : World := (render demo_lib first_call fresh_world).2.

(** The events a drag step can add after its own entry. *)
Definition drag_event (ev : Event) : bool :=
  match ev with
  | CallInitNetwork | CallRenderDragImpl => false
  | _ => true
  end.

Definition is_post_mortem (ev : Event) : bool :=
  match ev with PostMortem _ => true | _ => false end.

Definition is_update (ev : Event) : bool :=
  match ev with ZeroGrad | Backward | OptimStep => true | _ => false end.

(** ** The stages of [render]

    [render] first stamps the renderer and the fresh result, then runs
    [init_network] when it is needed, then the drag step or the [except]
    clause; [render_finish] follows. *)
Definition render_stage1 (a : Args) (wd : World) : World :=
  {| self := set__is_timing true (self wd);
     res := set_res_init_net (Some (needs_init (self wd) a)) EasyDict;
     journal := journal wd |}.

Definition render_stage2 (lib : Lib) (a : Args) (wd : World) : outcome unit * World :=
  if needs_init (self wd) a then init_network lib a (render_stage1 a wd)
  else (Returns tt, render_stage1 a wd).

Definition render_stage3 (lib : Lib) (a : Args) (wd : World) : World :=
  match render_stage2 lib a wd with
  | (Returns _, wd1) => (_render_drag_impl lib a wd1).2
  | (Raises e, wd1) =>
      {| self := self wd1; res := set_res_error (Some (Captured e)) (res wd1);
         journal := journal wd1 |}
  end.

Definition with_points (x : list Point) (a : Args) : Args :=
  let 'Build_Args a0 b c d e f g h i _ k l m n o p q r s t u v := a in
  Build_Args a0 b c d e f g h i x k l m n o p q r s t u v.
Definition with_r2 (x : Z) (a : Args) : Args :=
  let 'Build_Args a0 b c d e f g h i j k l m n o p _ r s t u v := a in
  Build_Args a0 b c d e f g h i j k l m n o p x r s t u v.

(** The session of [ready_world], about to be handed a fresh result. *)
Definition ready_session : World :=
  {| self := self ready_world; res := EasyDict; journal := [] |}.

(** An installation whose feature maps repeat along each row with period
    four, and its session after a first [render] without dragging. *)
Definition striped_lib : Lib :=
  {| randn := randn demo_lib;
     torch_load := torch_load demo_lib;
     load_network_pkl := load_network_pkl demo_lib;
     build_generator := build_generator demo_lib;
     np_linalg_inv := np_linalg_inv demo_lib;
     interpolate := fun _ _ _ => stripes;
     linalg_norm := linalg_norm demo_lib;
     mask_min := mask_min demo_lib;
     mask_max := mask_max demo_lib;
     autograd := autograd demo_lib;
     adam_step := adam_step demo_lib;
     quantize := quantize demo_lib |}.

Definition striped_session : World :=
  {| self := self (render striped_lib (with_is_drag false first_call) fresh_world).2;
     res := EasyDict; journal := [] |}.

(** A drag call whose only point sits on its target. *)
Definition on_target_call : Args :=
  with_r2 128 (with_points [(8, 8)] (with_targets [(8, 8)] first_call)).

(** ** [update_optim_space] and [update_lr] (lines 293-319)

    The messages the two methods print are left out. *)

Definition fresh_adam_state : AdamState :=
  {| adam_steps := 0; exp_avg := None; exp_avg_sq := None |}.

(** [w.detach()] or [w[:, 0, :].detach()], lines 301-304 and 283-286. *)
Definition latent_of (w_plus : bool) (w : list V) : outcome LatentCode :=
  if w_plus then Returns (WPlus w)
  else match w with
       | v :: _ => Returns (WSingle v)
       | [] => Raises IndexError
       end.

Definition update_optim_space (w_plus' : bool) : M unit :=
  current <- getattr "w_plus" w_plus ;;
  if bool_decide (current = w_plus') then ret tt
  else
    modify_self (set_w_plus (Some w_plus')) ;;;
    w <- getattr "w0" w0 ;;
    latent <- lift (latent_of w_plus' w) ;;
    modify_self (set_w (Some {| data := latent; grad := None |})) ;;;
    optim <- getattr "w_optim" w_optim ;;
    modify_self (set_w_optim (Some {| lr := lr optim; adam_state := fresh_adam_state |})) ;;;
    modify_self (set_feat_refs (Some None)) ;;;
    modify_self (set_points0_pt (Some None)).

(** [del self.w_optim] comes first: when [self.w] is missing the optimizer
    is gone by the time the [AttributeError] is raised. *)
Definition update_lr (lr' : Q) : M unit :=
  getattr "w_optim" w_optim ;;;
  modify_self (set_w_optim None) ;;;
  getattr "w" w ;;;
  modify_self (set_w_optim (Some {| lr := lr'; adam_state := fresh_adam_state |})).

(** ** Pinned transfer buffers (lines 205-217)

    [_pinned_bufs], which the renderer record leaves out, is a dictionary
    from (shape, dtype) to a buffer.  [copy_] writes into the buffer object
    that the dictionary holds, so the entry changes with it.  What
    [torch.empty] leaves in a new buffer is arbitrary: it is the argument
    [junk]. *)

Record Buf := {
  buf_shape : list nat;
  buf_dtype : string;
  buf_device : string;
  buf_values : list Z;
}.

Definition buf_key (b : Buf) : list nat * string := (buf_shape b, buf_dtype b).

Definition torch_empty (junk : list Z) (shape : list nat) (dtype : string) : Buf :=
  {| buf_shape := shape; buf_dtype := dtype; buf_device := "cpu";
     buf_values := junk |}.

Definition _get_pinned_buf (junk : list Z) (ref : Buf)
    (bufs : gmap (list nat * string) Buf) : Buf * gmap (list nat * string) Buf :=
  match bufs !! buf_key ref with
  | Some buf => (buf, bufs)
  | None =>
      let buf := torch_empty junk (buf_shape ref) (buf_dtype ref) in
      (buf, <[buf_key ref := buf]> bufs)
  end.

(** [dst.copy_(src)] for tensors of one shape and dtype, the only case the
    key of the dictionary lets through; other shapes are rejected here
    (torch would try to broadcast them). *)
Definition copy_ (dst src : Buf) : outcome Buf :=
  if bool_decide (buf_key dst = buf_key src) then
    Returns {| buf_shape := buf_shape dst; buf_dtype := buf_dtype dst;
               buf_device := buf_device dst; buf_values := buf_values src |}
  else Raises (RuntimeError "copy_: shapes or dtypes differ").

Definition to_ (device : string) (b : Buf) : Buf :=
  {| buf_shape := buf_shape b; buf_dtype := buf_dtype b; buf_device := device;
     buf_values := buf_values b |}.

(** [self._get_pinned_buf(buf).copy_(buf)], shared by the two transfers. *)
Definition through_pinned (junk : list Z) (x : Buf)
    (bufs : gmap (list nat * string) Buf)
    : outcome Buf * gmap (list nat * string) Buf :=
  let '(buf, bufs1) := _get_pinned_buf junk x bufs in
  match copy_ buf x with
  | Raises e => (Raises e, bufs1)
  | Returns buf' => (Returns buf', <[buf_key x := buf']> bufs1)
  end.

(** [to_cpu]: [.clone()] gives a new tensor with the content of the buffer. *)
Definition to_cpu (junk : list Z) (x : Buf) (bufs : gmap (list nat * string) Buf)
    : outcome Buf * gmap (list nat * string) Buf :=
  through_pinned junk x bufs.

(** [to_device]: [.to(self._device)], the device being 'cuda' (line 93). *)
Definition to_device (junk : list Z) (x : Buf) (bufs : gmap (list nat * string) Buf)
    : outcome Buf * gmap (list nat * string) Buf :=
  match through_pinned junk x bufs with
  | (Returns buf, bufs') => (Returns (to_ "cuda" buf), bufs')
  | (Raises e, bufs') => (Raises e, bufs')
  end.

(** Every buffer sits under its own shape and dtype, on the host. *)
Definition pinned_ok (bufs : gmap (list nat * string) Buf) : Prop :=
  forall k b, bufs !! k = Some b -> buf_key b = k /\ buf_device b = "cpu".

(** ** Predicates used in the further properties *)

Definition in_image (h w : Z) (p : Point) : bool :=
  (0 <=? p.1) && (p.1 <? h) && (0 <=? p.2) && (p.2 <? w).

(** The list [self.feat_refs], when there is one, has one entry for each
    stored point. *)
Definition refs_match_points (s : Renderer) : Prop :=
  forall refs, feat_refs s = Some (Some refs) ->
    exists pts, points s = Some pts /\ length refs = length pts.

(** A renderer whose session attributes are all set. *)
Definition tuned_world : World :=
  (_render_drag_impl demo_lib first_call ready_session).2.

(** A position that [t[:, :, py, px]] can read: an index may be negative
    down to minus the size of its dimension. *)
Definition addressable (h w : Z) (p : Point) : bool :=
  (- h <=? p.1) && (p.1 <? h) && (- w <=? p.2) && (p.2 <? w).

(** The feature vector that indexing with [p] reads. *)
Definition read_at (fm : FeatureMap) (h w : Z) (p : Point) : Vec :=
  fm (p.1 `mod` h) (p.2 `mod` w).

(** A drag call whose second point lies below the image, and the session
    it leaves behind when it follows the first call. *)
Definition stray_call : Args :=
  with_points [(3, 3); (16, 5)] (with_targets [(3, 9); (16, 9)] first_call).

Definition stuck_session : World :=
  {| self := self (_render_drag_impl demo_lib stray_call ready_session).2;
     res := EasyDict; journal := [] |}.


Definition with_mask (x : option Tensor) (a : Args) : Args :=
  let 'Build_Args a0 b c d e f g h i j k _ m n o p q r s t u v := a in
  Build_Args a0 b c d e f g h i j k x m n o p q r s t u v.

(** An installation that takes the least and the greatest entry of a mask
    (of entries between 0 and 1). *)
Definition masking_lib : Lib :=
  {| randn := randn demo_lib;
     torch_load := torch_load demo_lib;
     load_network_pkl := load_network_pkl demo_lib;
     build_generator := build_generator demo_lib;
     np_linalg_inv := np_linalg_inv demo_lib;
     interpolate := interpolate demo_lib;
     linalg_norm := linalg_norm demo_lib;
     mask_min := foldr Z.min 1;
     mask_max := foldr Z.max 0;
     autograd := autograd demo_lib;
     adam_step := adam_step demo_lib;
     quantize := quantize demo_lib |}.


(** ** What a call is about to do

    The pair that the synthesis network returns in a call on the renderer
    [s], when the call gets that far (lines 346-364), and the feature map
    that a drag step then selects (line 373). *)
Definition synthesis_output (a : Args) (s : Renderer)
    : option (Tensor * list Tensor) :=
  match G s, w s, w0 s with
  | Some g, Some p, Some l =>
      let ws := effective_ws (data p) l in
      let out :=
        if _is_old s then
          match mean_latent s with
          | Some ml => synthesis_old g ws ml
          | None => Raises (AttributeError "mean_latent")
          end
        else synthesis g (transform g) ws (arg_trunc_psi a) (arg_noise_mode a) in
      match out with Returns o => Some o | Raises _ => None end
  | _, _, _ => None
  end.

Definition selected_feature (a : Args) (s : Renderer) : option Tensor :=
  if arg_is_drag a then
    match synthesis_output a s with
    | Some out => out.2 !! arg_feature_idx a
    | None => None
    end
  else None.

(** * Properties *)

(** ** [torch.min] *)

Lemma min_scan_spec (l : list Z) : forall (pre : list Z) best bi v i,
  pre !! bi = Some best ->
  (forall k y, pre !! k = Some y -> best <= y /\ (y = best -> (bi <= k)%nat)) ->
  min_scan best bi (length pre) l = (v, i) ->
  (pre ++ l) !! i = Some v /\
  forall k y, (pre ++ l) !! k = Some y -> v <= y /\ (y = v -> (i <= k)%nat).
Proof.
  induction l as [|x l IH]; intros pre best bi v i Hb Hmin; simpl.
  - intros [= <- <-]. rewrite app_nil_r. auto.
  - assert (Hlen : S (length pre) = length (pre ++ [x]))
      by (rewrite length_app; simpl; lia).
    rewrite Hlen, (cons_middle x pre l), app_assoc.
    destruct (Z.ltb_spec x best) as [Hlt|Hge]; intros Hscan.
    + apply (IH (pre ++ [x]) x (length pre)); [| |exact Hscan].
      * rewrite lookup_app_r, Nat.sub_diag by lia. reflexivity.
      * intros k y Hk. apply lookup_app_Some in Hk as [Hk|[Hk1 Hk2]].
        -- destruct (Hmin _ _ Hk). lia.
        -- destruct (k - length pre)%nat eqn:E; simpl in Hk2; [|done].
           injection Hk2 as <-. lia.
    + apply (IH (pre ++ [x]) best bi); [| |exact Hscan].
      * apply lookup_app_l_Some, Hb.
      * intros k y Hk. apply lookup_app_Some in Hk as [Hk|[Hk1 Hk2]].
        -- apply Hmin, Hk.
        -- destruct (k - length pre)%nat eqn:E; simpl in Hk2; [|done].
           injection Hk2 as <-. apply lookup_lt_Some in Hb. lia.
Qed.

Lemma torch_min_spec (l : list Z) v i :
  torch_min l = Returns (v, i) ->
  l !! i = Some v /\
  forall k y, l !! k = Some y -> v <= y /\ (y = v -> (i <= k)%nat).
Proof.
  destruct l as [|x l]; simpl; [discriminate|].
  intros [= Hscan].
  apply (min_scan_spec l [x] x 0%nat v i); [reflexivity| |exact Hscan].
  intros [|k] y; simpl; [intros [= <-]; lia|done].
Qed.

Lemma torch_min_total (l : list Z) :
  l <> [] -> exists v i, torch_min l = Returns (v, i).
Proof.
  destruct l as [|x l]; [done|]. intros _. simpl.
  destruct (min_scan x 0 1 l) as [v i]. eauto.
Qed.

(** ** Patches in row-major order *)

Lemma bind_singleton_fmap {A B} (f : A -> B) (l : list A) :
  (x ← l; [f x]) = f <$> l.
Proof. induction l as [|a l IH]; csimpl; [|rewrite IH]; reflexivity. Qed.

Lemma grid_length (n : nat) : forall a b m,
  0 <= m ->
  length (y ← seqZ a (Z.of_nat n); x ← seqZ b m; [(y, x)])
  = (n * Z.to_nat m)%nat.
Proof.
  induction n as [|n IH]; intros a b m Hm; [reflexivity|].
  rewrite (seqZ_cons a) by lia.
  replace (Z.pred (Z.of_nat (S n))) with (Z.of_nat n) by lia.
  csimpl. rewrite length_app, IH by lia.
  rewrite bind_singleton_fmap, length_fmap, length_seqZ. reflexivity.
Qed.

Lemma grid_lookup (n : nat) : forall a b m k,
  0 < m -> 0 <= k < Z.of_nat n * m ->
  (y ← seqZ a (Z.of_nat n); x ← seqZ b m; [(y, x)]) !! Z.to_nat k
  = Some (a + k `div` m, b + k `mod` m).
Proof.
  induction n as [|n IH]; intros a b m k Hm Hk; [lia|].
  rewrite (seqZ_cons a) by lia.
  replace (Z.pred (Z.of_nat (S n))) with (Z.of_nat n) by lia.
  csimpl. rewrite bind_singleton_fmap.
  destruct (Z.lt_ge_cases k m) as [Hlt|Hge].
  - rewrite lookup_app_l by (rewrite length_fmap, length_seqZ; lia).
    rewrite list_lookup_fmap.
    assert (seqZ b m !! Z.to_nat k = Some (b + k)) as ->
      by (apply lookup_seqZ; lia).
    simpl. rewrite Z.div_small, Z.mod_small by lia.
    f_equal. f_equal. lia.
  - rewrite lookup_app_r by (rewrite length_fmap, length_seqZ; lia).
    rewrite length_fmap, length_seqZ.
    replace (Z.to_nat k - Z.to_nat m)%nat with (Z.to_nat (k - m)) by lia.
    rewrite IH by lia.
    assert (Hd : k `div` m = (k - m) `div` m + 1)
      by (rewrite <- (Z.div_add (k - m) 1 m) by lia; f_equal; lia).
    assert (Hr : k `mod` m = (k - m) `mod` m)
      by (rewrite <- (Z.mod_add (k - m) 1 m) by lia; f_equal; lia).
    rewrite Hd, Hr. f_equal. f_equal. lia.
Qed.

Lemma patch_coords_plain (h w up down left right : Z) :
  0 <= up < down -> down <= h -> 0 <= left < right -> right <= w ->
  patch_coords h w up down left right
  = (y ← seqZ up (Z.of_nat (Z.to_nat (down - up)));
     x ← seqZ left (right - left); [(y, x)]).
Proof.
  intros Hu Hd Hl Hr. unfold patch_coords, slice_range, slice_index.
  destruct (Z.ltb_spec up 0), (Z.ltb_spec down 0),
    (Z.ltb_spec left 0), (Z.ltb_spec right 0); try lia.
  rewrite !Z.min_l by lia. rewrite Z2Nat.id by lia. reflexivity.
Qed.

Lemma scan_order (m a b a' b' : Z) :
  0 <= b < m -> 0 <= b' < m -> a * m + b <= a' * m + b' ->
  a < a' \/ (a = a' /\ b <= b').
Proof. intros Hb Hb' Hle. destruct (Z.lt_trichotomy a a') as [?|[->|?]]; [lia|lia|nia]. Qed.

Lemma grid_index_bound (n m y x : Z) :
  0 <= y < n -> 0 <= x < m -> 0 <= y * m + x < n * m.
Proof. intros Hy Hx. nia. Qed.

Lemma grid_row_bound (n m a b : Z) :
  0 <= b < m -> 0 <= m * a + b < n * m -> 0 <= a < n.
Proof. intros Hb Hi. nia. Qed.

(** One point: the tracker returns a position of the clipped window at
    which the computed norm is least, the first such position in scan
    order. *)
Lemma track_point_spec (norm : Vec -> Vec -> Z) (fm : FeatureMap) (h w r : Z)
    (ref : Vec) (p : Point) :
  window_nonempty h w r p = true ->
  exists q, track_point norm fm h w r ref p = Returns q /\
    in_window h w r p q /\
    forall q', in_window h w r p q' ->
      norm (fm q.1 q.2) ref <= norm (fm q'.1 q'.2) ref /\
      (norm (fm q'.1 q'.2) ref = norm (fm q.1 q.2) ref -> scan_le q q').
Proof.
  unfold window_nonempty, track_point, in_window, Point in *. intros Hw.
  apply andb_prop in Hw as [Hrow Hcol].
  apply Z.ltb_lt in Hrow, Hcol.
  set (up := Z.max (p.1 - r) 0) in *. set (down := Z.min (p.1 + r + 1) h) in *.
  set (left := Z.max (p.2 - r) 0) in *. set (right := Z.min (p.2 + r + 1) w) in *.
  assert (Hup : 0 <= up) by (subst up; lia).
  assert (Hdown : down <= h) by (subst down; lia).
  assert (Hleft : 0 <= left) by (subst left; lia).
  assert (Hright : right <= w) by (subst right; lia).
  rewrite patch_coords_plain by lia.
  set (n := Z.to_nat (down - up)). set (m := right - left).
  set (grid := y ← seqZ up (Z.of_nat n); x ← seqZ left m; [(y, x)]).
  set (cost := fun q : Z * Z => norm (fm q.1 q.2) ref).
  assert (Hlen : length grid = (n * Z.to_nat m)%nat)
    by (apply grid_length; subst m; lia).
  assert (Hgrid : forall k, 0 <= k < Z.of_nat n * m ->
            grid !! Z.to_nat k = Some (up + k `div` m, left + k `mod` m))
    by (intros k Hk; apply grid_lookup; [subst m; lia|exact Hk]).
  destruct (torch_min_total (cost <$> grid)) as (v & i & Hmin).
  { intros Hnil. apply (f_equal length) in Hnil.
    rewrite length_fmap, Hlen in Hnil. simpl in Hnil. subst n m. nia. }
  rewrite Hmin. apply torch_min_spec in Hmin as [Hi Hleast].
  assert (Hirange : 0 <= Z.of_nat i < Z.of_nat n * m).
  { apply lookup_lt_Some in Hi. rewrite length_fmap, Hlen in Hi. subst m. nia. }
  pose proof (Hgrid _ Hirange) as Hq. rewrite Nat2Z.id in Hq.
  rewrite list_lookup_fmap, Hq in Hi. simpl in Hi. injection Hi as Hv.
  destruct (Z.eqb_spec m 0) as [?|_]; [subst m; lia|].
  set (a := Z.of_nat i `div` m) in *. set (b := Z.of_nat i `mod` m) in *.
  assert (Hdm : Z.of_nat i = m * a + b) by (apply Z.div_mod; subst m; lia).
  assert (Hb : 0 <= b < m) by (apply Z.mod_pos_bound; subst m; lia).
  assert (Ha : 0 <= a < Z.of_nat n)
    by (apply (grid_row_bound _ m a b Hb); rewrite <- Hdm; exact Hirange).
  exists (a + up, b + left). split; [reflexivity|]. simpl. split.
  { subst up down left right n m. lia. }
  intros [y' x'] Hin. simpl in Hin.
  set (k := (y' - up) * m + (x' - left)).
  assert (Hy : 0 <= y' - up < Z.of_nat n) by (subst up down n; lia).
  assert (Hx : 0 <= x' - left < m) by (subst left right m; lia).
  assert (Hk : 0 <= k < Z.of_nat n * m)
    by (apply grid_index_bound; assumption).
  pose proof (Hgrid _ Hk) as Hq'.
  assert (Hkd : k `div` m = y' - up).
  { subst k. rewrite Z.div_add_l by lia. rewrite Z.div_small by lia. lia. }
  assert (Hkm : k `mod` m = x' - left).
  { subst k. rewrite Z.add_comm, Z.mod_add by lia. apply Z.mod_small; lia. }
  rewrite Hkd, Hkm in Hq'.
  replace (up + (y' - up)) with y' in Hq' by lia.
  replace (left + (x' - left)) with x' in Hq' by lia.
  destruct (Hleast (Z.to_nat k) (cost (y', x'))) as [Hle Hfirst].
  { rewrite list_lookup_fmap, Hq'. reflexivity. }
  subst v. unfold cost in *. simpl in *.
  replace (a + up) with (up + a) by lia. replace (b + left) with (left + b) by lia.
  split; [exact Hle|]. intros Heq. specialize (Hfirst Heq).
  unfold scan_le. simpl.
  assert (Hik : Z.of_nat i <= k) by lia.
  destruct (scan_order m a b (y' - up) (x' - left)) as [?|[? ?]]; [lia|lia| |lia|lia].
  clear - Hik Hdm. subst k. lia.
Qed.

(** ** The tracking loop *)

Lemma track_loop_spec (norm : Vec -> Vec -> Z) (fm : FeatureMap) (h w r : Z)
    (refs : list Vec) (n : nat) :
  forall (j : nat) (points : list Point),
  (length points <= j + n)%nat ->
  (forall i p, (j <= i)%nat -> points !! i = Some p ->
     window_nonempty h w r p = true /\ is_Some (refs !! i)) ->
  exists tracked,
    track_loop norm fm h w r refs n j points = (tracked, None) /\
    length tracked = length points /\
    (forall i, (i < j)%nat -> tracked !! i = points !! i) /\
    (forall i p, (j <= i)%nat -> points !! i = Some p ->
       exists ref q, refs !! i = Some ref /\
         track_point norm fm h w r ref p = Returns q /\ tracked !! i = Some q).
Proof.
  induction n as [|n IH]; intros j points Hlen Hok; simpl.
  - exists points. repeat split; try done.
    intros i p Hi Hp. apply lookup_lt_Some in Hp. lia.
  - destruct (points !! j) as [p|] eqn:Hj.
    + destruct (Hok j p) as [Hwin [ref Href]]; [lia|exact Hj|].
      rewrite Href.
      destruct (track_point_spec norm fm h w r ref p Hwin) as (q & Hq & _).
      rewrite Hq.
      destruct (IH (S j) (<[j := q]> points)) as (tracked & Hrun & Hl & Hlow & Hhigh).
      { rewrite length_insert. lia. }
      { intros i p' Hi Hp'. rewrite list_lookup_insert_ne in Hp' by lia.
        apply (Hok i p'); [lia|exact Hp']. }
      exists tracked. rewrite length_insert in Hl.
      split; [exact Hrun|]. split; [exact Hl|]. split.
      * intros i Hi. rewrite Hlow by lia. apply list_lookup_insert_ne. lia.
      * intros i p' Hi Hp'. destruct (decide (i = j)) as [->|Hne].
        -- rewrite Hj in Hp'. injection Hp' as <-.
           exists ref, q. split; [exact Href|]. split; [exact Hq|].
           rewrite Hlow by lia. apply list_lookup_insert_eq.
           apply lookup_lt_Some in Hj. exact Hj.
        -- apply Hhigh; [lia|]. rewrite list_lookup_insert_ne by lia. exact Hp'.
    + exists points. repeat split; try done.
      intros i p Hi Hp. apply lookup_ge_None in Hj.
      apply lookup_lt_Some in Hp. lia.
Qed.

Lemma track_points_spec (norm : Vec -> Vec -> Z) (fm : FeatureMap) (h w r2 : Z)
    (refs : list Vec)
    (points : list Point) :
  length refs = length points ->
  windows_nonempty h w (scaled_radius r2 h) points = true ->
  exists tracked,
    track_points norm fm h w r2 refs points = (tracked, None) /\
    length tracked = length points /\
    forall j p, points !! j = Some p ->
      exists ref q, refs !! j = Some ref /\
        track_point norm fm h w (scaled_radius r2 h) ref p = Returns q /\
        tracked !! j = Some q.
Proof.
  intros Hlen Hwin. unfold track_points, windows_nonempty in *.
  destruct (track_loop_spec norm fm h w (scaled_radius r2 h) refs (length points) 0 points)
    as (tracked & Hrun & Hl & _ & Hall).
  - lia.
  - intros i p _ Hp. split.
    + rewrite forallb_forall in Hwin. apply Hwin.
      apply list_elem_of_In, list_elem_of_lookup. eauto.
    + apply lookup_lt_is_Some. rewrite Hlen. apply lookup_lt_Some in Hp. exact Hp.
  - exists tracked. split; [exact Hrun|]. split; [exact Hl|].
    intros j p Hp. apply Hall; [lia|exact Hp].
Qed.

(** ** Distances over the reals *)

Lemma l2sq_nonneg (a b : Vec) : 0 <= l2sq a b.
Proof.
  revert b. induction a as [|x a IH]; intros [|y b]; simpl; try lia.
  specialize (IH b). pose proof (Z.square_nonneg (x - y)). lia.
Qed.

Lemma feature_distance_le (a b c d : Vec) :
  l2sq a b <= l2sq c d -> (feature_distance a b <= feature_distance c d)%R.
Proof. intros H. unfold feature_distance. apply sqrt_le_1_alt, IZR_le, H. Qed.

Lemma feature_distance_eq (a b c d : Vec) :
  feature_distance a b = feature_distance c d -> l2sq a b = l2sq c d.
Proof.
  unfold feature_distance. intros H.
  apply eq_IZR, sqrt_inj; [apply IZR_le, l2sq_nonneg ..|exact H].
Qed.

(** The norm of the examples orders vectors as the exact distance does, as
    long as the squared distances stay below [2 ^ 38]. *)
Lemma exact_norm_le (a b c d : Vec) :
  l2sq a b < 2 ^ 38 -> l2sq c d < 2 ^ 38 ->
  (exact_norm a b <= exact_norm c d <-> l2sq a b <= l2sq c d).
Proof.
  intros Ha Hc. unfold exact_norm.
  pose proof (l2sq_nonneg a b) as Hx. pose proof (l2sq_nonneg c d) as Hy.
  set (x := l2sq a b) in *. set (y := l2sq c d) in *.
  split.
  - intros Hle. destruct (Z.le_gt_cases x y) as [?|Hlt]; [assumption|exfalso].
    pose proof (Z.sqrt_spec (2 ^ 40 * y)) as [Hlow Hup]; [lia|].
    set (t := Z.sqrt (2 ^ 40 * y)) in *.
    assert (Ht : 0 <= t) by apply Z.sqrt_nonneg.
    assert (Hsmall : t < 2 ^ 39).
    { apply Z.nle_gt. intros Hbig.
      assert (2 ^ 39 * 2 ^ 39 <= t * t) by nia.
      change (2 ^ 39 * 2 ^ 39) with (2 ^ 40 * 2 ^ 38) in *. lia. }
    assert (Hnext : (t + 1) * (t + 1) <= 2 ^ 40 * x).
    { replace ((t + 1) * (t + 1)) with (t * t + (2 * t + 1)) by ring.
      assert (2 ^ 40 * y + 2 ^ 40 <= 2 ^ 40 * x) by lia.
      change (2 ^ 39) with 549755813888 in Hsmall.
      change (2 ^ 40) with 1099511627776 in *. lia. }
    apply Z.sqrt_le_square in Hnext; [|lia|lia]. lia.
  - intros Hle. apply Z.sqrt_le_mono. lia.
Qed.

(** C2 (as amended). Every point handed to the tracker of a drag step whose
    clipped search window (half-width [round(r2 / 512 * h)], centred at the
    point's previous position) meets the image is relocated to a position of
    that window at which the norm of the difference between the resized
    feature map and the point's reference feature, as torch computes it in
    float32, is least; among the positions with that computed value it is
    the first one in row-major scan order.  Whenever the computed values
    order the positions of the window as the exact Euclidean distances do,
    this is the position at which the Euclidean distance is least, the
    first such position in scan order. *)
Theorem tracker_relocates_to_first_nearest (norm : Vec -> Vec -> Z)
    (fm : FeatureMap) (h w r2 : Z) (refs : list Vec) (points : list Point) :
  length refs = length points ->
  windows_nonempty h w (scaled_radius r2 h) points = true ->
  exists tracked,
    track_points norm fm h w r2 refs points = (tracked, None) /\
    forall j p ref, points !! j = Some p -> refs !! j = Some ref ->
      exists q, tracked !! j = Some q /\
        in_window h w (scaled_radius r2 h) p q /\
        (forall q', in_window h w (scaled_radius r2 h) p q' ->
           norm (fm q.1 q.2) ref <= norm (fm q'.1 q'.2) ref /\
           (norm (fm q'.1 q'.2) ref = norm (fm q.1 q.2) ref -> scan_le q q')) /\
        ((forall q1 q2, in_window h w (scaled_radius r2 h) p q1 ->
            in_window h w (scaled_radius r2 h) p q2 ->
            (norm (fm q1.1 q1.2) ref <= norm (fm q2.1 q2.2) ref <->
             l2sq (fm q1.1 q1.2) ref <= l2sq (fm q2.1 q2.2) ref)) ->
         forall q', in_window h w (scaled_radius r2 h) p q' ->
           (feature_distance (fm q.1 q.2) ref
              <= feature_distance (fm q'.1 q'.2) ref)%R /\
           (feature_distance (fm q'.1 q'.2) ref
              = feature_distance (fm q.1 q.2) ref -> scan_le q q')).
Proof.
  intros Hlen Hwin.
  destruct (track_points_spec norm fm h w r2 refs points Hlen Hwin)
    as (tracked & Hrun & _ & Hall).
  exists tracked. split; [exact Hrun|].
  intros j p ref Hp Href.
  destruct (Hall j p Hp) as (ref' & q & Href' & Hq & Hj).
  assert (ref' = ref) as -> by congruence.
  assert (Hok : window_nonempty h w (scaled_radius r2 h) p = true).
  { unfold windows_nonempty in Hwin. rewrite forallb_forall in Hwin.
    apply Hwin, list_elem_of_In, list_elem_of_lookup. eauto. }
  destruct (track_point_spec norm fm h w (scaled_radius r2 h) ref p Hok)
    as (q0 & Hq0 & Hin & Hbest).
  assert (q0 = q) as -> by congruence.
  exists q. split; [exact Hj|]. split; [exact Hin|]. split; [exact Hbest|].
  intros Hexact q' Hq'. destruct (Hbest q' Hq') as [Hle Hfirst]. split.
  - apply feature_distance_le, (Hexact q q' Hin Hq'), Hle.
  - intros Heq. apply feature_distance_eq in Heq. apply Hfirst.
    apply Z.le_antisymm; [apply (Hexact q' q Hq' Hin)|apply (Hexact q q' Hin Hq')];
      lia.
Qed.

Lemma tracker_relocates_to_first_nearest_witness :
  exists tracked,
    track_points exact_norm stripes 16 16 40 [[3; 2]; [1; 9]] [(2, 2); (9, 15)]
      = (tracked, None) /\
    forall j p ref,
      [(2, 2); (9, 15)] !! j = Some p -> [[3; 2]; [1; 9]] !! j = Some ref ->
      exists q, tracked !! j = Some q /\
        in_window 16 16 (scaled_radius 40 16) p q /\
        forall q', in_window 16 16 (scaled_radius 40 16) p q' ->
          (feature_distance (stripes q.1 q.2) ref
             <= feature_distance (stripes q'.1 q'.2) ref)%R /\
          (feature_distance (stripes q'.1 q'.2) ref
             = feature_distance (stripes q.1 q.2) ref -> scan_le q q').
Proof.
  destruct (tracker_relocates_to_first_nearest exact_norm stripes 16 16 40
              [[3; 2]; [1; 9]] [(2, 2); (9, 15)] eq_refl eq_refl)
    as (tracked & Hrun & Hall).
  exists tracked. split; [exact Hrun|].
  intros j p ref Hp Href.
  destruct (Hall j p ref Hp Href) as (q & Hq & Hin & _ & Hexact).
  exists q. split; [exact Hq|]. split; [exact Hin|].
  apply Hexact. intros q1 q2 H1 H2.
  assert (Hbound : forall q0, in_window 16 16 (scaled_radius 40 16) p q0 ->
            l2sq (stripes q0.1 q0.2) ref < 2 ^ 38).
  { intros [y x] ((_ & Hy) & _). unfold stripes. cbn [fst snd] in *.
    pose proof (Z.mod_pos_bound x 4 ltac:(lia)) as Hm.
    destruct j as [|[|j]]; try discriminate Href;
      injection Href as <-; cbn [l2sq];
      change (2 ^ 38) with 274877906944; nia. }
  apply exact_norm_le; apply Hbound; assumption.
Defined.

(** C2, as first stated, fails on a point above the image: with radius 0
    the row slice [0:-1] wraps around to rows 0..14, and the point is sent
    to row 14, which is not in the window around row -2. *)
Lemma tracker_window_wraps :
  feature_at ramp 16 16 (-2) 3 = Returns [227] /\
  track_points exact_norm ramp 16 16 12 [[227]] [(-2, 3)] = ([(14, 3)], None) /\
  ~ in_window 16 16 (scaled_radius 12 16) (-2, 3) (14, 3).
Proof.
  split; [reflexivity|]. split; [reflexivity|].
  unfold in_window. change (scaled_radius 12 16) with 0. simpl. lia.
Qed.

(** C8 (as amended). For every input point set in which each point's clipped
    search window meets the image, the tracker produces a point set of the
    same length, its j-th point lies in the window of the j-th input point,
    and every coordinate lies within the image: row in [0, h), column in
    [0, w). *)
Theorem tracker_keeps_length_and_bounds (norm : Vec -> Vec -> Z)
    (fm : FeatureMap) (h w r2 : Z)
    (refs : list Vec) (points : list Point) :
  length refs = length points ->
  windows_nonempty h w (scaled_radius r2 h) points = true ->
  exists tracked,
    track_points norm fm h w r2 refs points = (tracked, None) /\
    length tracked = length points /\
    forall j q, tracked !! j = Some q ->
      (0 <= q.1 < h /\ 0 <= q.2 < w) /\
      exists p, points !! j = Some p /\ in_window h w (scaled_radius r2 h) p q.
Proof.
  intros Hlen Hwin.
  destruct (track_points_spec norm fm h w r2 refs points Hlen Hwin)
    as (tracked & Hrun & Hl & Hall).
  exists tracked. split; [exact Hrun|]. split; [exact Hl|].
  intros j q Hq.
  destruct (lookup_lt_is_Some_2 points j) as [p Hp].
  { rewrite <- Hl. apply lookup_lt_Some in Hq. exact Hq. }
  destruct (Hall j p Hp) as (ref & q0 & Href & Hq0 & Hj).
  pose proof (eq_trans (eq_sym Hj) Hq) as [= ->].
  assert (Hok : window_nonempty h w (scaled_radius r2 h) p = true).
  { unfold windows_nonempty in Hwin. rewrite forallb_forall in Hwin.
    apply Hwin, list_elem_of_In, list_elem_of_lookup. eauto. }
  destruct (track_point_spec norm fm h w (scaled_radius r2 h) ref p Hok)
    as (q1 & Hq1 & Hin & _).
  assert (q1 = q) as -> by congruence.
  split; [|exists p; split; [exact Hp|exact Hin]].
  unfold in_window in Hin. lia.
Qed.

Lemma tracker_keeps_length_and_bounds_witness :
  exists tracked,
    track_points exact_norm ramp 16 16 40 [[35]; [255]] [(2, 2); (15, 14)]
      = (tracked, None) /\
    length tracked = length [(2, 2); (15, 14)] /\
    forall j q, tracked !! j = Some q ->
      (0 <= q.1 < 16 /\ 0 <= q.2 < 16) /\
      exists p, [(2, 2); (15, 14)] !! j = Some p /\
                in_window 16 16 (scaled_radius 40 16) p q.
Proof.
  apply (tracker_keeps_length_and_bounds exact_norm ramp 16 16 40
           [[35]; [255]] [(2, 2); (15, 14)]); reflexivity.
Defined.

(** Points within the image have a non-empty window. *)
Lemma window_nonempty_in_image (h w r : Z) (p : Point) :
  0 <= r -> 0 <= p.1 < h -> 0 <= p.2 < w -> window_nonempty h w r p = true.
Proof.
  intros Hr Hy Hx. unfold window_nonempty.
  apply andb_true_intro. split; apply Z.ltb_lt; lia.
Qed.

(** C8, as first stated, fails on a point left of the image: in a 16x16
    image with [r2 = 12] the radius is 0, the slice [0:-1] of the columns
    wraps around, [width] is -1, and the point is sent to row -14. *)
Lemma tracker_leaves_image :
  track_points exact_norm ramp 16 16 12 [[14]] [(0, -2)] = ([(-14, 0)], None) /\
  feature_at ramp 16 16 0 (-2) = Returns [14] /\
  ~ (0 <= (-14, 0).1 < 16).
Proof. split; [reflexivity|]. split; [reflexivity|]. simpl. lia. Qed.

(** ** The convergence test *)

Lemma norm_sq_nonneg (d : Z * Z) : 0 <= norm_sq d.
Proof.
  unfold norm_sq.
  pose proof (Z.square_nonneg d.1). pose proof (Z.square_nonneg d.2). lia.
Qed.

Lemma stop_threshold_IZR (h : Z) :
  stop_threshold h = (IZR (Z.max (2 * h) (2 * 512)) / 512)%R.
Proof.
  unfold stop_threshold.
  destruct (Z.max_spec (2 * h) (2 * 512)) as [[Hlt ->]|[Hle ->]].
  - rewrite Rmax_right.
    + rewrite mult_IZR. lra.
    + apply IZR_lt in Hlt. rewrite !mult_IZR in Hlt. lra.
  - rewrite Rmax_left.
    + rewrite mult_IZR. lra.
    + apply IZR_le in Hle. rewrite !mult_IZR in Hle. lra.
Qed.

(** The integer comparison of the model is the comparison of the norm with
    the threshold. *)
Lemma beyond_stop_threshold_spec (h : Z) (p t : Point) :
  beyond_stop_threshold h p t = true <-> (euclid p t > stop_threshold h)%R.
Proof.
  unfold beyond_stop_threshold, euclid. rewrite stop_threshold_IZR.
  set (s := norm_sq (direction p t)). set (T := Z.max (2 * h) (2 * 512)).
  assert (Hs : (0 <= IZR s)%R) by (apply IZR_le, norm_sq_nonneg).
  assert (HT : (0 < IZR T)%R) by (apply IZR_lt; subst T; lia).
  pose proof (sqrt_sqrt _ Hs) as Hsq. pose proof (sqrt_pos (IZR s)) as Hpos.
  rewrite Z.ltb_lt. split.
  - intros Hlt. apply IZR_lt in Hlt. rewrite !mult_IZR in Hlt. nra.
  - intros Hgt. apply lt_IZR. rewrite !mult_IZR. nra.
Qed.

Lemma within_stop_threshold_spec (h : Z) (p t : Point) :
  beyond_stop_threshold h p t = false <-> (euclid p t <= stop_threshold h)%R.
Proof.
  pose proof (beyond_stop_threshold_spec h p t) as Hspec.
  destruct (beyond_stop_threshold h p t); split; intros H.
  - discriminate.
  - assert (euclid p t > stop_threshold h)%R by (apply Hspec; reflexivity). lra.
  - destruct (Rle_or_lt (euclid p t) (stop_threshold h)) as [Hle|Hlt];
      [exact Hle|]. destruct Hspec as [_ Hspec]. discriminate Hspec. lra.
  - reflexivity.
Qed.

Lemma stop_loop_spec (h : Z) (targets : list Point) :
  forall (points : list Point) (j : nat) (stop : bool),
  (j + length points <= length targets)%nat ->
  exists b,
    stop_loop h targets j points stop = (b, None) /\
    (b = true <->
     stop = true /\
     forall i p t, points !! i = Some p -> targets !! (j + i)%nat = Some t ->
       beyond_stop_threshold h p t = false).
Proof.
  intros points. induction points as [|p points IH]; intros j stop Hlen; simpl in *.
  - exists stop. split; [reflexivity|]. split; [|tauto].
    intros ->. split; [reflexivity|]. intros i p t Hp. done.
  - destruct (lookup_lt_is_Some_2 targets j) as [t Ht]; [lia|]. rewrite Ht.
    destruct (IH (S j) (if beyond_stop_threshold h p t then false else stop))
      as (b & Hrun & Hb); [lia|].
    exists b. split; [exact Hrun|]. rewrite Hb. split.
    + intros [Hstop Hrest].
      destruct (beyond_stop_threshold h p t) eqn:Hbeyond; [discriminate|].
      split; [exact Hstop|]. intros [|i] p' t' Hp' Ht'; simpl in Hp'.
      * injection Hp' as <-. rewrite Nat.add_0_r, Ht in Ht'.
        injection Ht' as <-. exact Hbeyond.
      * apply (Hrest i p' t' Hp'). rewrite <- Ht'. f_equal. lia.
    + intros [-> Hall]. split.
      * rewrite (Hall 0%nat p t); [reflexivity|reflexivity|].
        rewrite Nat.add_0_r. exact Ht.
      * intros i p' t' Hp' Ht'. apply (Hall (S i) p' t' Hp').
        rewrite <- Ht'. f_equal. lia.
Qed.

(** On lists of equal length the loop ends without an [IndexError], and
    its flag is true exactly when no distance exceeds the threshold. *)
Lemma motion_stop_spec (h : Z) (points targets : list Point) :
  length points = length targets ->
  exists b,
    motion_stop h points targets = (b, None) /\
    (b = true <->
     forall j p t, points !! j = Some p -> targets !! j = Some t ->
       (euclid p t <= stop_threshold h)%R).
Proof.
  intros Hlen. unfold motion_stop.
  destruct (stop_loop_spec h targets points 0 true) as (b & Hrun & Hb); [lia|].
  exists b. split; [exact Hrun|]. rewrite Hb. split.
  - intros [_ Hall] j p t Hp Ht.
    apply within_stop_threshold_spec, (Hall j p t Hp Ht).
  - intros Hall. split; [reflexivity|]. intros i p t Hp Ht.
    apply within_stop_threshold_spec, (Hall i p t Hp Ht).
Qed.

(** ** Running the monad symbolically *)

Ltac unfold_monad :=
  unfold _ignore_timing, update_G, reraise in *;
  unfold bind, try_except, getattr, get_self, get_res, modify_self,
    modify_res, record_event, lift, ret, raise in *.

Ltac reduce_world :=
  cbn [self res journal fst snd
       _pkl_data _networks _is_old _is_timing mean_latent pkl G w0_seed
       w_plus w0 w w_optim feat_refs points0_pt feat0_resize points
       set__pkl_data set__networks set__is_old set__is_timing
       set_mean_latent set_pkl set_G set_w0_seed set_w_plus set_w0 set_w
       set_w_optim set_feat_refs set_points0_pt set_feat0_resize set_points
       res_init_net res_img_resolution res_num_ws res_has_noise
       res_has_input_transform res_error res_points res_stop res_image
       set_res_init_net set_res_img_resolution set_res_num_ws
       set_res_has_noise set_res_has_input_transform set_res_error
       set_res_points set_res_stop set_res_image
       data grad lr adam_state default fmap option_fmap option_map] in *.

Ltac case_innermost :=
  match goal with
  | |- context [match ?x with _ => _ end] =>
      lazymatch x with
      | context [match _ with _ => _ end] => fail
      | _ => destruct x eqn:?
      end
  end.

Ltac run := repeat (reduce_world; try case_innermost).

Ltac open_world wd :=
  let s := fresh "s" in let r := fresh "r" in let jl := fresh "jl" in
  destruct wd as [s r jl]; destruct s, r.

Lemma get_network_frame lib name key wd :
  let wd' := (get_network lib name key wd).2 in
  res wd' = res wd /\ journal wd' = journal wd /\
  pkl (self wd') = pkl (self wd) /\
  session_untouched (self wd) (self wd') /\
  _is_old (self wd') = contains "stylegan2-old" name.
Proof.
  open_world wd.
  unfold get_network, build_net, session_untouched. unfold_monad.
  run; repeat split; reflexivity.
Qed.

(** The outcome of [get_network] is decided by the two caches. *)
Lemma get_network_outcome lib name key wd x b r' jl' :
  (get_network lib name key
     {| self := set_pkl x (set__is_timing b (self wd));
        res := r'; journal := jl' |}).1
  = (get_network lib name key wd).1.
Proof.
  open_world wd.
  unfold get_network, build_net. unfold_monad.
  run; reflexivity.
Qed.

Lemma init_network_journal lib a wd :
  let wd' := (init_network lib a wd).2 in
  journal wd' = journal wd ++ [CallInitNetwork] /\
  res_init_net (res wd') = res_init_net (res wd) /\
  res_image (res wd') = res_image (res wd).
Proof.
  pose proof (get_network_frame lib (arg_pkl a) "G_ema") as Hframe.
  open_world wd.
  unfold init_network, set_input_transform. unfold_monad. reduce_world.
  match goal with
  | |- context [get_network lib ?n ?k ?W] =>
      specialize (Hframe W); destruct (get_network lib n k W) as [o wdg]
  end.
  destruct wdg as [sg rg jg]. reduce_world.
  destruct Hframe as (Hres & Hjl & _). subst rg jg. destruct sg.
  run; repeat split; reflexivity.
Qed.

Ltac unfold_drag :=
  unfold _render_drag_impl, iex, render_drag_body, reset_block, drag_step,
    zero_grad, backward, optim_step in *.

Lemma drag_impl_effects lib a wd : forall o wd',
  _render_drag_impl lib a wd = (o, wd') ->
  o = Returns tt /\
  res_init_net (res wd') = res_init_net (res wd) /\
  res_error (res wd') = res_error (res wd) /\
  G (self wd') = G (self wd) /\ pkl (self wd') = pkl (self wd) /\
  w0_seed (self wd') = w0_seed (self wd) /\
  w_plus (self wd') = w_plus (self wd) /\
  w0 (self wd') = w0 (self wd) /\
  lr <$> w_optim (self wd') = lr <$> w_optim (self wd) /\
  exists evs,
    journal wd' = journal wd ++ CallRenderDragImpl :: evs /\
    forallb drag_event evs = true /\
    if existsb is_post_mortem evs
    then res_image (res wd') = res_image (res wd)
    else exists px, res_image (res wd')
                    = Some (if arg_to_pil a then PilImage px else TensorImage px).
Proof.
  intros o wd'. open_world wd. unfold_drag. unfold_monad.
  run.
  all: intros [= <- <-]; reduce_world; repeat (split; [reflexivity|]);
    rewrite <- ?app_assoc; eexists; (split; [reflexivity|]);
    (split; [reflexivity|]); simpl; eauto.
Qed.

(** ** The drag step and the optimizer *)

Lemma stop_loop_false (h : Z) (targets : list Point) :
  forall (pts : list Point) (j : nat) (stop : bool) e,
  stop_loop h targets j pts stop = (false, e) ->
  stop = false \/
  exists i p t, pts !! i = Some p /\ targets !! (j + i)%nat = Some t /\
    beyond_stop_threshold h p t = true.
Proof.
  intros pts. induction pts as [|p pts IH]; intros j stop e; simpl.
  - intros [= -> _]. left. reflexivity.
  - destruct (targets !! j) as [t|] eqn:Ht.
    + intros Hrun. apply IH in Hrun as [Hstop|(i & p' & t' & Hp' & Ht' & Hb)].
      * destruct (beyond_stop_threshold h p t) eqn:Hb; [|left; exact Hstop].
        right. exists 0%nat, p, t. rewrite Nat.add_0_r. auto.
      * right. exists (S i), p', t'. split; [exact Hp'|]. split; [|exact Hb].
        rewrite <- Ht'. f_equal. lia.
    + intros [= -> _]. left. reflexivity.
Qed.

Lemma motion_stop_false (h : Z) (pts targets : list Point) e :
  motion_stop h pts targets = (false, e) ->
  exists j p t, pts !! j = Some p /\ targets !! j = Some t /\
    (euclid p t > stop_threshold h)%R.
Proof.
  intros Hrun. apply stop_loop_false in Hrun as [?|(i & p & t & Hp & Ht & Hb)];
    [discriminate|].
  exists i, p, t. split; [exact Hp|]. split; [exact Ht|].
  apply beyond_stop_threshold_spec, Hb.
Qed.

Lemma track_loop_length (norm : Vec -> Vec -> Z) (fm : FeatureMap) (h w r : Z)
    (refs : list Vec) (n : nat) :
  forall (j : nat) (pts : list Point),
  length (track_loop norm fm h w r refs n j pts).1 = length pts.
Proof.
  induction n as [|n IH]; intros j pts; simpl; [reflexivity|].
  destruct (pts !! j) as [pt|]; [|reflexivity].
  destruct (refs !! j) as [ref|]; [|reflexivity].
  destruct (track_point norm fm h w r ref pt); [|reflexivity].
  rewrite IH. apply length_insert.
Qed.

(** The flag a drag step stores is the one the convergence loop computes on
    the points the tracker has just relocated. *)
Lemma drag_impl_stop_flag lib a wd g b :
  arg_is_drag a = true ->
  res_stop (res wd) = None ->
  G (self wd) = Some g ->
  res_stop (res (_render_drag_impl lib a wd).2) = Some b ->
  exists tracked e,
    res_points (res (_render_drag_impl lib a wd).2) = Some tracked /\
    length tracked = length (arg_points a) /\
    motion_stop (img_resolution g) tracked (arg_targets a) = (b, e).
Proof.
  destruct (_render_drag_impl lib a wd) as [o wd'] eqn:Hrun.
  cbn [snd]. intros Hdrag Hfresh Hg. revert Hrun.
  destruct wd as [s r jl]. destruct s. destruct r. reduce_world. subst.
  unfold_drag. unfold_monad. rewrite Hdrag.
  run.
  all: intros [= <- <-]; reduce_world; intros Hb; try discriminate Hb.
  all: injection Hb as <-.
  all: eexists _, _; (split; [reflexivity|]).
  all: split; [|eassumption].
  all: match goal with
       | H : track_points ?nm ?fm ?h ?w ?r2 ?refs ?pts = (?t, _) |- length ?t = _ =>
           change t with (t, @None Exn).1; rewrite <- H; apply track_loop_length
       end.
Qed.

(** C1 (as amended). In a drag step with point and target lists of equal
    length, the stop flag stored in the result is true if and only if every
    point, as the tracker has just relocated it, lies at a Euclidean distance
    of at most [max(2 / 512 * resolution, 2)] pixels from its target: the
    flag is cleared only by a distance strictly greater than the threshold. *)
Theorem stop_flag_iff_within_threshold lib a wd g b :
  arg_is_drag a = true ->
  length (arg_points a) = length (arg_targets a) ->
  res_stop (res wd) = None ->
  G (self wd) = Some g ->
  res_stop (res (_render_drag_impl lib a wd).2) = Some b ->
  exists tracked,
    res_points (res (_render_drag_impl lib a wd).2) = Some tracked /\
    (b = true <->
     forall j p t, tracked !! j = Some p -> arg_targets a !! j = Some t ->
       (euclid p t <= stop_threshold (img_resolution g))%R).
Proof.
  intros Hdrag Hlen Hfresh Hg Hb.
  destruct (drag_impl_stop_flag lib a wd g b Hdrag Hfresh Hg Hb)
    as (tracked & e & Hpoints & Hl & Hstop).
  exists tracked. split; [exact Hpoints|].
  destruct (motion_stop_spec (img_resolution g) tracked (arg_targets a))
    as (b' & Hrun & Hiff); [congruence|].
  rewrite Hrun in Hstop. injection Hstop as <- _. exact Hiff.
Qed.

Lemma stop_flag_iff_within_threshold_witness :
  arg_is_drag first_call = true /\
  res_stop (res (_render_drag_impl demo_lib first_call ready_session).2)
    = Some false /\
  exists tracked,
    res_points (res (_render_drag_impl demo_lib first_call ready_session).2)
      = Some tracked /\
    (false = true <->
     forall j p t, tracked !! j = Some p -> arg_targets first_call !! j = Some t ->
       (euclid p t <= stop_threshold (img_resolution (demo_generator None)))%R).
Proof.
  split; [reflexivity|]. split; [reflexivity|].
  apply (stop_flag_iff_within_threshold demo_lib first_call ready_session
           (demo_generator None) false); reflexivity.
Defined.

(** C1, as first stated, fails at the threshold itself: in a 16x16 image
    the threshold is 2, and a tracked point two pixels from its target
    leaves the flag true although its distance is not below 2. *)
Lemma stop_flag_true_at_threshold :
  res_points (res (_render_drag_impl demo_lib (with_targets [(3, 5)] first_call)
                     ready_session).2) = Some [(3, 3)] /\
  res_stop (res (_render_drag_impl demo_lib (with_targets [(3, 5)] first_call)
                   ready_session).2) = Some true /\
  ~ (euclid (3, 3)%Z (3, 5)%Z < stop_threshold 16)%R.
Proof.
  split; [reflexivity|]. split; [reflexivity|].
  assert (Heuclid : euclid (3, 3) (3, 5) = 2%R).
  { change (sqrt (IZR 4) = 2%R).
    replace 4%R with (2 * 2)%R by lra. apply sqrt_square. lra. }
  assert (Hthr : stop_threshold 16 = 2%R).
  { rewrite stop_threshold_IZR. change (IZR 1024 / 512 = 2)%R. lra. }
  rewrite Heuclid, Hthr. lra.
Qed.

(** C7 (as amended). A drag step after which every tracked point reported in
    [res.points] lies within the convergence threshold of its target applies
    no optimizer update: the journal holds no [zero_grad], [backward] or
    [step], and [self.w] (value and gradient) and [self.w_optim] are what
    they were before the call. *)
Theorem converged_step_leaves_latent lib a wd :
  let wd' := (_render_drag_impl lib a wd).2 in
  arg_is_drag a = true ->
  (forall g tracked j p t,
     G (self wd) = Some g -> res_points (res wd') = Some tracked ->
     tracked !! j = Some p -> arg_targets a !! j = Some t ->
     (euclid p t <= stop_threshold (img_resolution g))%R) ->
  w (self wd') = w (self wd) /\
  w_optim (self wd') = w_optim (self wd) /\
  existsb is_update (events_of (_render_drag_impl lib a) wd) = false.
Proof.
  cbv zeta. unfold events_of.
  destruct (_render_drag_impl lib a wd) as [o wd'] eqn:Hrun.
  cbn [snd]. intros Hdrag. revert Hrun.
  open_world wd. unfold_drag. unfold_monad. rewrite Hdrag.
  run.
  all: intros [= <- <-] Hnear; reduce_world;
    try (exfalso;
         match goal with
         | Hm : motion_stop _ _ _ = (false, _) |- _ =>
             let far := fresh "far" in
             pose proof (motion_stop_false _ _ _ _ Hm) as far;
             destruct far as (? & ? & ? & Hp & Ht & Hgt);
             specialize (Hnear _ _ _ _ _ eq_refl eq_refl Hp Ht); lra
         end);
    repeat (split; [reflexivity|]);
    rewrite <- ?app_assoc, drop_app_length; reflexivity.
Qed.

Lemma converged_step_leaves_latent_witness :
  arg_is_drag (with_targets [(3, 4)] first_call) = true /\
  res_points (res (_render_drag_impl demo_lib (with_targets [(3, 4)] first_call)
                     ready_world).2) = Some [(3, 3)] /\
  w (self (_render_drag_impl demo_lib (with_targets [(3, 4)] first_call)
             ready_world).2) = w (self ready_world) /\
  w_optim (self (_render_drag_impl demo_lib (with_targets [(3, 4)] first_call)
                   ready_world).2) = w_optim (self ready_world) /\
  existsb is_update
    (events_of (_render_drag_impl demo_lib (with_targets [(3, 4)] first_call))
       ready_world) = false.
Proof.
  split; [reflexivity|]. split; [reflexivity|].
  apply (converged_step_leaves_latent demo_lib
           (with_targets [(3, 4)] first_call) ready_world); [reflexivity|].
  intros g tracked j p t Hg Htracked Hp Ht.
  vm_compute in Hg. injection Hg as <-.
  vm_compute in Htracked. injection Htracked as <-.
  destruct j as [|j]; [|destruct j; discriminate].
  injection Hp as <-. vm_compute in Ht. injection Ht as <-.
  apply within_stop_threshold_spec. reflexivity.
Defined.

(** C7, as first stated, fails for a point that sits on its target when the
    step begins: the tracker first relocates it (here to the first of several
    positions with the same feature, four pixels away), the relocated point
    is beyond the threshold, and the optimizer is stepped. *)
Lemma on_target_step_updates :
  arg_is_drag on_target_call = true /\
  arg_points on_target_call = arg_targets on_target_call /\
  res_points (res (_render_drag_impl striped_lib on_target_call striped_session).2)
    = Some [(8, 4)] /\
  existsb is_update
    (events_of (_render_drag_impl striped_lib on_target_call) striped_session)
    = true /\
  w (self (_render_drag_impl striped_lib on_target_call striped_session).2)
    <> w (self striped_session).
Proof.
  split; [reflexivity|]. split; [reflexivity|]. split; [reflexivity|].
  split; [reflexivity|]. vm_compute. discriminate.
Qed.


Lemma reset_requested_iff (s : Renderer) (a : Args) :
  reset_requested s a = true <->
  arg_reset a = true \/
  exists old, points s = Some old /\ length (arg_points a) <> length old.
Proof.
  unfold reset_requested. destruct (points s) as [old|].
  - destruct (decide (length (arg_points a) = length old)) as [Heq|Hne].
    + rewrite bool_decide_eq_false_2 by (intros Hne; apply Hne, Heq).
      split; [auto|]. intros [?|(old' & [= <-] & Hne)]; [assumption|].
      contradiction.
    + rewrite bool_decide_eq_true_2 by exact Hne.
      split; [|reflexivity]. intros _. right. eauto.
  - split; [auto|]. intros [?|(old & Habs & _)]; [assumption|discriminate].
Qed.

(** A call that is no drag step: the latent code and the optimizer are
    kept; once [G], [w] and [w0] exist the reset block is reached and
    decides about the references; without one of them the call ends at
    lines 346-350 and the renderer is as it was. *)
Lemma plain_call_frame lib a wd :
  arg_is_drag a = false ->
  let wd' := (_render_drag_impl lib a wd).2 in
  w (self wd') = w (self wd) /\
  w_optim (self wd') = w_optim (self wd) /\
  (is_Some (G (self wd)) -> is_Some (w (self wd)) -> is_Some (w0 (self wd)) ->
   feat_refs (self wd')
   = if reset_requested (self wd) a then Some None else feat_refs (self wd)) /\
  (G (self wd) = None \/ w (self wd) = None \/ w0 (self wd) = None ->
   self wd' = self wd).
Proof.
  intros Hdrag. cbv zeta. open_world wd. unfold_drag. unfold_monad.
  rewrite Hdrag.
  run.
  all: (split; [reflexivity|]); (split; [reflexivity|]); split;
    [ intros [? ?] [? ?] [? ?]; first [discriminate | reflexivity]
    | intros [?|[?|?]]; first [discriminate | reflexivity] ].
Qed.

(** C3 (as amended). A call of [_render_drag_impl] with [is_drag = False]
    never changes [self.w] or [self.w_optim], whatever the other arguments
    are.  A reset is requested exactly when the reset flag is set or the
    number of points differs from the stored one.  On a renderer that has
    [G], [w] and [w0] the call leaves [self.feat_refs] as it is when no
    reset is requested and sets it to [None] when one is; on a renderer
    that lacks one of the three the call ends before the reset block and
    changes no attribute. *)
Theorem plain_render_keeps_latent lib a wd :
  let wd' := (_render_drag_impl lib a wd).2 in
  arg_is_drag a = false ->
  w (self wd') = w (self wd) /\
  w_optim (self wd') = w_optim (self wd) /\
  (reset_requested (self wd) a = true <->
   arg_reset a = true \/
   exists old, points (self wd) = Some old /\
     length (arg_points a) <> length old) /\
  (is_Some (G (self wd)) -> is_Some (w (self wd)) -> is_Some (w0 (self wd)) ->
   (reset_requested (self wd) a = false ->
    feat_refs (self wd') = feat_refs (self wd)) /\
   (reset_requested (self wd) a = true -> feat_refs (self wd') = Some None)) /\
  (G (self wd) = None \/ w (self wd) = None \/ w0 (self wd) = None ->
   self wd' = self wd).
Proof.
  cbv zeta. intros Hdrag.
  destruct (plain_call_frame lib a wd Hdrag) as (Hw & Ho & Hrefs & Hearly).
  split; [exact Hw|]. split; [exact Ho|].
  split; [apply reset_requested_iff|]. split; [|exact Hearly].
  intros HG Hwv Hw0. rewrite (Hrefs HG Hwv Hw0).
  split; intros ->; reflexivity.
Qed.

Lemma plain_render_keeps_latent_witness :
  let a := with_is_drag false first_call in
  let a' := with_is_drag false (with_points [(3, 3); (4, 4)] first_call) in
  w (self (_render_drag_impl demo_lib a ready_world).2) = w (self ready_world) /\
  w_optim (self (_render_drag_impl demo_lib a ready_world).2)
    = w_optim (self ready_world) /\
  reset_requested (self ready_world) a = false /\
  feat_refs (self (_render_drag_impl demo_lib a ready_world).2)
    = feat_refs (self ready_world) /\
  reset_requested (self ready_world) a' = true /\
  feat_refs (self (_render_drag_impl demo_lib a' ready_world).2) = Some None.
Proof.
  intros a a'.
  destruct (plain_render_keeps_latent demo_lib a ready_world eq_refl)
    as (Hw & Ho & _ & Hrefs & _).
  destruct (plain_render_keeps_latent demo_lib a' ready_world eq_refl)
    as (_ & _ & _ & Hrefs' & _).
  assert (HG : is_Some (G (self ready_world))) by (vm_compute; eauto).
  assert (Hwv : is_Some (w (self ready_world))) by (vm_compute; eauto).
  assert (Hw0 : is_Some (w0 (self ready_world))) by (vm_compute; eauto).
  assert (Hno : reset_requested (self ready_world) a = false)
    by (vm_compute; reflexivity).
  assert (Hyes : reset_requested (self ready_world) a' = true)
    by (vm_compute; reflexivity).
  split; [exact Hw|]. split; [exact Ho|]. split; [exact Hno|].
  split; [apply (Hrefs HG Hwv Hw0), Hno|]. split; [exact Hyes|].
  apply (Hrefs' HG Hwv Hw0), Hyes.
Defined.

(** C3, as first stated, fails for the reference cache: after a drag step
    has filled [self.feat_refs], a call with [is_drag = False] and
    [reset = True] sets it to [None]. *)
Lemma plain_render_with_reset_clears_refs :
  arg_is_drag (with_is_drag false (with_reset true first_call)) = false /\
  feat_refs (self ready_world) = Some (Some [[51]]) /\
  feat_refs (self (_render_drag_impl demo_lib
                     (with_is_drag false (with_reset true first_call))
                     ready_world).2) = Some None /\
  feat_refs (self (_render_drag_impl demo_lib
                     (with_is_drag false (with_reset true first_call))
                     ready_world).2) <> feat_refs (self ready_world).
Proof.
  split; [reflexivity|]. split; [reflexivity|]. split; [reflexivity|].
  vm_compute. discriminate.
Qed.

(** What a call with a reset leaves as snapshot and as references: both
    are replaced when the call is a drag step that gets its feature map,
    whatever happens afterwards. *)
Lemma reset_call_snapshot lib a wd g :
  reset_requested (self wd) a = true ->
  G (self wd) = Some g -> is_Some (w (self wd)) -> is_Some (w0 (self wd)) ->
  let wd' := (_render_drag_impl lib a wd).2 in
  match selected_feature a (self wd) with
  | Some raw =>
      feat0_resize (self wd')
      = Some (interpolate lib raw (img_resolution g) (img_resolution g)) /\
      feat_refs (self wd')
      = Some (Some (collect_refs
                      (interpolate lib raw (img_resolution g) (img_resolution g))
                      (img_resolution g) (img_resolution g) (arg_points a) []).1)
  | None =>
      feat0_resize (self wd') = feat0_resize (self wd) /\
      feat_refs (self wd') = Some None
  end.
Proof.
  intros Hreset Hg [p Hp] [l Hl]. cbv zeta. revert Hreset.
  destruct wd as [s r jl]; destruct s. reduce_world. subst.
  unfold selected_feature, synthesis_output.
  unfold_drag. unfold_monad. reduce_world.
  run.
  all: intros Hreset; try discriminate Hreset; simplify_eq.
  all: try match goal with
           | H : collect_refs _ _ _ _ _ = _ |- _ => rewrite H
           end; split; reflexivity.
Qed.

(** C4 (as amended). Every reset, whether asked for by the reset flag or
    caused by a number of points that differs from the stored one, sets
    [self.feat_refs] and [self.points0_pt] to [None] and leaves the latent
    code, the base latent code, the optimizer and the stored snapshot
    [self.feat0_resize] as they are; a whole call with [is_drag = False]
    ends in that state, and no call changes the learning rate of the
    optimizer.  The snapshot is not cleared: a call with a reset replaces
    it, together with the references, exactly when it is a drag step whose
    synthesis returns the selected feature map (lines 373-379), also when
    the step ends in the debugger afterwards; in every other case the
    snapshot is the one stored before and the references are [None]. *)
Theorem reset_clears_refs_keeps_latent lib a wd :
  reset_requested (self wd) a = true ->
  (let wd1 := (reset_block a wd).2 in
   feat_refs (self wd1) = Some None /\ points0_pt (self wd1) = Some None /\
   w (self wd1) = w (self wd) /\ w0 (self wd1) = w0 (self wd) /\
   w_optim (self wd1) = w_optim (self wd) /\
   feat0_resize (self wd1) = feat0_resize (self wd)) /\
  (let wd' := (_render_drag_impl lib a wd).2 in
   arg_is_drag a = false ->
   is_Some (G (self wd)) -> is_Some (w (self wd)) -> is_Some (w0 (self wd)) ->
   feat_refs (self wd') = Some None /\ points0_pt (self wd') = Some None /\
   w (self wd') = w (self wd) /\ w0 (self wd') = w0 (self wd) /\
   w_optim (self wd') = w_optim (self wd) /\
   feat0_resize (self wd') = feat0_resize (self wd)) /\
  lr <$> w_optim (self (_render_drag_impl lib a wd).2) = lr <$> w_optim (self wd) /\
  (let wd' := (_render_drag_impl lib a wd).2 in
   forall g, G (self wd) = Some g ->
   is_Some (w (self wd)) -> is_Some (w0 (self wd)) ->
   match selected_feature a (self wd) with
   | Some raw =>
       feat0_resize (self wd')
       = Some (interpolate lib raw (img_resolution g) (img_resolution g)) /\
       feat_refs (self wd')
       = Some (Some (collect_refs
                       (interpolate lib raw (img_resolution g) (img_resolution g))
                       (img_resolution g) (img_resolution g) (arg_points a) []).1)
   | None =>
       feat0_resize (self wd') = feat0_resize (self wd) /\
       feat_refs (self wd') = Some None
   end).
Proof.
  intros Hreset. split; [|split; [|split]].
  - cbv zeta. unfold reset_block. unfold_monad. rewrite Hreset.
    destruct wd as [s r jl]; destruct s. reduce_world. repeat split; reflexivity.
  - cbv zeta.
    destruct (_render_drag_impl lib a wd) as [o wd'] eqn:Hrun.
    cbn [snd]. intros Hdrag [g Hg] [p Hp] [l Hl]. revert Hrun.
    destruct wd as [s r jl]; destruct s. reduce_world. subst.
    unfold_drag. unfold_monad. rewrite Hdrag. run.
    all: intros [= <- <-]; reduce_world; try congruence;
      repeat split; reflexivity.
  - destruct (_render_drag_impl lib a wd) as [o wd'] eqn:Hrun.
    apply drag_impl_effects in Hrun. cbn [snd]. apply Hrun.
  - cbv zeta. intros g Hg Hwv Hw0.
    apply (reset_call_snapshot lib a wd g Hreset Hg Hwv Hw0).
Qed.

Lemma reset_clears_refs_keeps_latent_witness :
  let a := with_is_drag false (with_reset true first_call) in
  let a' := with_targets [] (with_reset true first_call) in
  let raw := [1; 2; 1; 2; 1; 2; 1; 2; 1; 2; 1; 2; 0; 1; 0; 1] in
  reset_requested (self ready_world) a = true /\
  feat_refs (self (reset_block a ready_world).2) = Some None /\
  feat_refs (self (_render_drag_impl demo_lib a ready_world).2) = Some None /\
  w (self (_render_drag_impl demo_lib a ready_world).2) = w (self ready_world) /\
  lr <$> w_optim (self (_render_drag_impl demo_lib a ready_world).2)
    = lr <$> w_optim (self ready_world) /\
  feat0_resize (self (_render_drag_impl demo_lib a ready_world).2)
    = feat0_resize (self ready_world) /\
  selected_feature a' (self ready_world) = Some raw /\
  existsb is_post_mortem (events_of (_render_drag_impl demo_lib a') ready_world)
    = true /\
  feat0_resize (self (_render_drag_impl demo_lib a' ready_world).2)
    = Some (interpolate demo_lib raw 16 16).
Proof.
  intros a a' raw.
  assert (HG : G (self ready_world) = Some (demo_generator None))
    by (vm_compute; reflexivity).
  assert (Hwv : is_Some (w (self ready_world))) by (vm_compute; eauto).
  assert (Hw0 : is_Some (w0 (self ready_world))) by (vm_compute; eauto).
  assert (Hsel : selected_feature a (self ready_world) = None)
    by (vm_compute; reflexivity).
  assert (Hsel' : selected_feature a' (self ready_world) = Some raw)
    by (vm_compute; reflexivity).
  split; [reflexivity|].
  pose proof (reset_clears_refs_keeps_latent demo_lib a ready_world eq_refl)
    as (Hblock & Hcall & Hlr & Hsnap).
  pose proof (reset_clears_refs_keeps_latent demo_lib a' ready_world eq_refl)
    as (_ & _ & _ & Hsnap').
  cbv zeta in Hblock, Hcall, Hsnap, Hsnap'.
  specialize (Hsnap _ HG Hwv Hw0). rewrite Hsel in Hsnap.
  specialize (Hsnap' _ HG Hwv Hw0). rewrite Hsel' in Hsnap'.
  split; [apply Hblock|].
  destruct Hcall as (Hrefs & _ & Hw & _); [reflexivity|eauto|exact Hwv|exact Hw0|].
  split; [exact Hrefs|]. split; [exact Hw|]. split; [exact Hlr|].
  split; [apply Hsnap|]. split; [exact Hsel'|].
  split; [vm_compute; reflexivity|]. apply Hsnap'.
Defined.

(** C4, as first stated, fails for the snapshot: a reset leaves
    [self.feat0_resize] in place.  It is replaced, with the references, by
    the next drag step that finds [self.feat_refs] at [None]. *)
Lemma reset_keeps_snapshot :
  reset_requested (self ready_world) (with_is_drag false (with_reset true first_call))
    = true /\
  is_Some (feat0_resize (self ready_world)) /\
  feat0_resize (self (_render_drag_impl demo_lib
                        (with_is_drag false (with_reset true first_call))
                        ready_world).2)
    = feat0_resize (self ready_world) /\
  feat0_resize (self (_render_drag_impl demo_lib
                        (with_is_drag false (with_reset true first_call))
                        ready_world).2) <> None.
Proof.
  split; [reflexivity|]. split; [vm_compute; eauto|].
  split; [reflexivity|]. vm_compute. discriminate.
Qed.

(** ** The latent code handed to the synthesis network *)






Lemma init_network_shape lib a wd p w0v :
  w (self (init_network lib a wd).2) = Some p ->
  w0 (self (init_network lib a wd).2) = Some w0v ->
  (init_network lib a wd).1 = Returns tt ->
  latent_shape_ok (data p) w0v.
Proof.
  pose proof (get_network_frame lib (arg_pkl a) "G_ema") as Hframe.
  destruct (init_network lib a wd) as [o wd'] eqn:Hrun. cbn [fst snd].
  revert Hrun. open_world wd.
  unfold init_network, set_input_transform. unfold_monad. reduce_world.
  match goal with
  | |- context [get_network lib ?n ?k ?W] =>
      specialize (Hframe W); destruct (get_network lib n k W) as [o' wdg]
  end.
  destruct wdg as [sg rg jg]. reduce_world.
  destruct Hframe as (Hres & Hjl & _). subst rg jg. destruct sg.
  run.
  all: intros [= <- <-]; reduce_world; intros Hp Hw0 Ho; try discriminate Ho;
    simplify_eq; simpl; reflexivity.
Qed.

(** ** [render] *)

Lemma needs_init_iff (s : Renderer) (a : Args) :
  needs_init s a = true <->
  G s = None \/
  (exists p, pkl s = Some p /\ p <> arg_pkl a) \/
  (exists z, w0_seed s = Some z /\ z <> arg_w0_seed a) \/
  (exists b, w_plus s = Some b /\ b <> arg_w_plus a) \/
  arg_reset_w a = true.
Proof.
  unfold needs_init. rewrite !orb_true_iff. split.
  - intros [[[[Hg|Hp]|Hz]|Hb]|Hr].
    + left. destruct (G s); [discriminate|reflexivity].
    + right. left. destruct (pkl s) as [p|]; [|discriminate].
      exists p. split; [reflexivity|]. apply bool_decide_eq_true in Hp. exact Hp.
    + right. right. left. destruct (w0_seed s) as [z|]; [|discriminate].
      exists z. split; [reflexivity|]. apply bool_decide_eq_true in Hz. exact Hz.
    + right. right. right. left. destruct (w_plus s) as [b|]; [|discriminate].
      exists b. split; [reflexivity|]. apply bool_decide_eq_true in Hb. exact Hb.
    + right. right. right. right. exact Hr.
  - intros [Hg|[(p & Hp & Hne)|[(z & Hz & Hne)|[(b & Hb & Hne)|Hr]]]].
    + left. left. left. left. rewrite Hg. reflexivity.
    + left. left. left. right. rewrite Hp. apply bool_decide_eq_true, Hne.
    + left. left. right. rewrite Hz. apply bool_decide_eq_true, Hne.
    + left. right. rewrite Hb. apply bool_decide_eq_true, Hne.
    + right. exact Hr.
Qed.

Lemma needs_init_timing (s : Renderer) (a : Args) b :
  needs_init (set__is_timing b s) a = needs_init s a.
Proof. destruct s. reflexivity. Qed.

(** What [render] does after the [try] block. *)
Lemma render_finish_spec wd :
  journal (render_finish wd).2 = journal wd /\
  self (render_finish wd).2 = self wd /\
  (forall r, (render_finish wd).1 = Returns r ->
     res_init_net r = res_init_net (res wd) /\
     res_error r = (fun v => ErrorText (error_text v)) <$> res_error (res wd) /\
     (is_Some (res_image r) <-> is_Some (res_image (res wd)))) /\
  (res_image (res wd) = None \/ (exists px, res_image (res wd) = Some (TensorImage px)) ->
   exists r, (render_finish wd).1 = Returns r).
Proof.
  destruct wd as [s r jl]. destruct s. destruct r as [? ? ? ? ? err ? ? img].
  unfold render_finish, to_cpu_numpy. unfold_monad.
  destruct img as [[px|px|px]|], err as [v|]; reduce_world;
    (split; [reflexivity|]); (split; [reflexivity|]); split;
    try (intros r' [= <-]; reduce_world; repeat split; eauto);
    try discriminate;
    try (intros [Himg|[? Himg]]; first [discriminate Himg | eauto]).
Qed.

Lemma render_stages lib a wd :
  render lib a wd = render_finish (render_stage3 lib a wd).
Proof.
  unfold render, render_try, render_stage3, render_stage2, render_stage1.
  unfold_monad. reduce_world. rewrite needs_init_timing.
  destruct (needs_init (self wd) a).
  - destruct (init_network lib a _) as [[[]|e] wd1]; [|reflexivity].
    destruct (_render_drag_impl lib a wd1) as [o wd2] eqn:Hrun.
    apply drag_impl_effects in Hrun as [-> _]. reflexivity.
  - match goal with
    | |- context [_render_drag_impl lib a ?W] =>
        destruct (_render_drag_impl lib a W) as [o wd2] eqn:Hrun
    end.
    apply drag_impl_effects in Hrun as [-> _]. reflexivity.
Qed.

Lemma drag_events_exclude_init (evs : list Event) :
  forallb drag_event evs = true ->
  (CallInitNetwork ∉ evs) /\ (CallRenderDragImpl ∉ evs).
Proof.
  intros Hall. rewrite forallb_forall in Hall.
  split; intros Hin; apply list_elem_of_In, Hall in Hin; discriminate.
Qed.

Lemma render_stage3_spec lib a wd :
  let wd3 := render_stage3 lib a wd in
  res_init_net (res wd3) = Some (needs_init (self wd) a) /\
  (exists evs,
     journal wd3
     = journal wd ++ (if needs_init (self wd) a then [CallInitNetwork] else []) ++ evs /\
     (CallInitNetwork ∉ evs)) /\
  (arg_to_pil a = false ->
   res_image (res wd3) = None \/
   exists px, res_image (res wd3) = Some (TensorImage px)) /\
  (needs_init (self wd) a = false ->
   G (self wd3) = G (self wd) /\ pkl (self wd3) = pkl (self wd) /\
   w0_seed (self wd3) = w0_seed (self wd) /\
   w_plus (self wd3) = w_plus (self wd) /\ w0 (self wd3) = w0 (self wd)).
Proof.
  cbv zeta. unfold render_stage3, render_stage2.
  destruct (needs_init (self wd) a) eqn:Hneed.
  - pose proof (init_network_journal lib a (render_stage1 a wd)) as (Hjl & Hinit & Himg).
    destruct (init_network lib a (render_stage1 a wd)) as [[[]|e] wd1];
      cbn [snd] in Hjl, Hinit, Himg; unfold render_stage1 in Hjl, Hinit, Himg;
      reduce_world; rewrite Hneed in Hinit.
    + destruct (_render_drag_impl lib a wd1) as [o wd2] eqn:Hrun.
      apply drag_impl_effects in Hrun
        as (_ & Hi & _ & _ & _ & _ & _ & _ & _ & evs & Hj & Hev & Hpm).
      cbn [snd]. split; [rewrite Hi, Hinit; reflexivity|]. split; [|split].
      * exists (CallRenderDragImpl :: evs). split.
        -- rewrite Hj, Hjl. rewrite <- app_assoc. reflexivity.
        -- apply not_elem_of_cons. split; [discriminate|].
           apply drag_events_exclude_init, Hev.
      * intros Hpil. rewrite Hpil in Hpm.
        destruct (existsb is_post_mortem evs); [|right; exact Hpm].
        left. rewrite Hpm, Himg. reflexivity.
      * discriminate.
    + reduce_world. split; [|split; [|split]].
      * destruct (res wd1). exact Hinit.
      * exists []. split; [rewrite Hjl; reflexivity|]. apply not_elem_of_nil.
      * intros _. left. destruct (res wd1). exact Himg.
      * discriminate.
  - destruct (_render_drag_impl lib a (render_stage1 a wd)) as [o wd2] eqn:Hrun.
    apply drag_impl_effects in Hrun
      as (_ & Hi & _ & Hg & Hp & Hz & Hb & Hw0 & _ & evs & Hj & Hev & Hpm).
    cbn [snd]. unfold render_stage1 in *. reduce_world.
    split; [rewrite Hi, Hneed; reflexivity|]. split; [|split].
    + exists (CallRenderDragImpl :: evs). split; [exact Hj|].
      apply not_elem_of_cons. split; [discriminate|].
      apply drag_events_exclude_init, Hev.
    + intros Hpil. rewrite Hpil in Hpm.
      destruct (existsb is_post_mortem evs); [left|right]; exact Hpm.
    + intros _. destruct (self wd). reduce_world. auto.
Qed.

(** C5. [render] invokes [init_network] exactly when the renderer holds no
    network, or the pickle, the seed or the [w_plus] flag of the call differs
    from the one the renderer holds, or [reset_w] is set; the [init_net]
    field of every returned result says so; when none of the conditions
    holds the network, the pickle name, the seed, the flag and the base
    latent code of the session are kept. *)
Theorem render_reinitializes_exactly_when_needed lib a wd :
  (needs_init (self wd) a = true <->
   G (self wd) = None \/
   (exists p, pkl (self wd) = Some p /\ p <> arg_pkl a) \/
   (exists z, w0_seed (self wd) = Some z /\ z <> arg_w0_seed a) \/
   (exists b, w_plus (self wd) = Some b /\ b <> arg_w_plus a) \/
   arg_reset_w a = true) /\
  (CallInitNetwork ∈ events_of (render lib a) wd <->
   needs_init (self wd) a = true) /\
  (forall r, (render lib a wd).1 = Returns r ->
     res_init_net r = Some (needs_init (self wd) a)) /\
  (needs_init (self wd) a = false ->
   G (self (render lib a wd).2) = G (self wd) /\
   pkl (self (render lib a wd).2) = pkl (self wd) /\
   w0_seed (self (render lib a wd).2) = w0_seed (self wd) /\
   w_plus (self (render lib a wd).2) = w_plus (self wd) /\
   w0 (self (render lib a wd).2) = w0 (self wd)) /\
  (arg_to_pil a = false -> exists r, (render lib a wd).1 = Returns r).
Proof.
  split; [apply needs_init_iff|].
  unfold events_of. rewrite render_stages.
  destruct (render_finish_spec (render_stage3 lib a wd))
    as (Hjl & Hself & Hres & Htotal).
  destruct (render_stage3_spec lib a wd)
    as (Hinit & (evs & Hevs & Hnot) & Himg & Hkeep).
  rewrite Hjl, Hself, Hevs, drop_app_length.
  split; [|split; [|split]].
  - destruct (needs_init (self wd) a); simpl.
    + split; [reflexivity|]. intros _. apply list_elem_of_here.
    + split; [intros Hin; contradiction|discriminate].
  - intros r Hr. destruct (Hres r Hr) as (-> & _). exact Hinit.
  - exact Hkeep.
  - intros Hpil. apply Htotal, Himg, Hpil.
Qed.

(** ** Failures of [init_network] *)

Lemma init_network_load_failure lib a wd b r' jl' e :
  (get_network lib (arg_pkl a) "G_ema" wd).1 = Raises e ->
  let run := init_network lib a
               {| self := set__is_timing b (self wd); res := r'; journal := jl' |} in
  run.1 = Raises e /\ res run.2 = r' /\
  journal run.2 = jl' ++ [CallInitNetwork] /\
  session_untouched (self wd) (self run.2) /\
  pkl (self run.2) = Some (arg_pkl a).
Proof.
  intros Hload. cbv zeta.
  unfold init_network. unfold_monad. reduce_world.
  match goal with
  | |- context [get_network lib ?n ?k ?W] =>
      pose proof (get_network_frame lib n k W) as Hframe;
      pose proof (get_network_outcome lib n k wd (Some (arg_pkl a)) b r'
                    (jl' ++ [CallInitNetwork])) as Hout;
      destruct (get_network lib n k W) as [o wdg]
  end.
  cbn [fst snd] in Hframe, Hout. rewrite Hload in Hout. subst o.
  destruct Hframe as (Hres & Hjl & Hpkl & Hsess & _).
  cbn [fst snd]. reduce_world.
  split; [reflexivity|]. split; [exact Hres|]. split; [exact Hjl|].
  split.
  - unfold session_untouched in *. destruct (self wd). reduce_world. exact Hsess.
  - rewrite Hpkl. destruct (self wd). reflexivity.
Qed.

(** C6 (as amended). When [init_network] is needed and [get_network] raises
    (the pickle cannot be loaded, holds no [G_ema], names no known
    architecture, or the generator cannot be built), [render] returns a
    result whose [error] is the text of that exception and that has no
    [image]; [_render_drag_impl] is not entered; and the network, the latent
    codes, the seed, the [w_plus] flag, the optimizer and the feature cache
    of the session are what they were before the call. *)
Theorem failed_load_reports_error lib a wd e :
  needs_init (self wd) a = true ->
  (get_network lib (arg_pkl a) "G_ema" wd).1 = Raises e ->
  (exists r, (render lib a wd).1 = Returns r /\
     res_error r = Some (ErrorText (describe e)) /\ res_image r = None) /\
  events_of (render lib a) wd = [CallInitNetwork] /\
  (CallRenderDragImpl ∉ events_of (render lib a) wd) /\
  session_untouched (self wd) (self (render lib a wd).2).
Proof.
  intros Hneed Hload.
  unfold events_of. rewrite render_stages.
  destruct (render_finish_spec (render_stage3 lib a wd))
    as (Hjl & Hself & Hres & Htotal).
  rewrite Hjl, Hself.
  unfold render_stage3, render_stage2, render_stage1 in *. rewrite Hneed in *.
  destruct (init_network_load_failure lib a wd true
              (set_res_init_net (Some true) EasyDict) (journal wd) e Hload)
    as (Hout & Hr & Hj & Hsess & _).
  destruct (init_network lib a _) as [o wd1]. cbn [fst snd] in *. subst o.
  reduce_world. rewrite Hr in *. reduce_world.
  split; [|split; [|split]].
  - destruct Htotal as [r Hfin]; [left; reflexivity|].
    exists r. split; [exact Hfin|]. destruct (Hres r Hfin) as (_ & Herr & Himg).
    split; [exact Herr|].
    destruct (res_image r) eqn:E; [|reflexivity].
    destruct Himg as [[? Habs] _]; [eauto|discriminate Habs].
  - rewrite Hj, drop_app_length. reflexivity.
  - rewrite Hj, drop_app_length. intros Hin.
    apply elem_of_cons in Hin as [Hin|Hin]; [discriminate|].
    apply elem_of_nil in Hin. exact Hin.
  - exact Hsess.
Qed.

Lemma failed_load_reports_error_witness :
  needs_init (self ready_world) (with_pkl "stylegan2-missing.pkl" first_call) = true /\
  (get_network demo_lib "stylegan2-missing.pkl" "G_ema" ready_world).1
    = Raises (LoadError "stylegan2-missing.pkl") /\
  (exists r, (render demo_lib (with_pkl "stylegan2-missing.pkl" first_call)
                ready_world).1 = Returns r /\
     res_error r = Some (ErrorText (describe (LoadError "stylegan2-missing.pkl"))) /\
     res_image r = None) /\
  session_untouched (self ready_world)
    (self (render demo_lib (with_pkl "stylegan2-missing.pkl" first_call)
             ready_world).2).
Proof.
  split; [reflexivity|]. split; [reflexivity|].
  destruct (failed_load_reports_error demo_lib
              (with_pkl "stylegan2-missing.pkl" first_call) ready_world
              (LoadError "stylegan2-missing.pkl") eq_refl eq_refl)
    as (Hres & _ & _ & Hsess).
  split; [exact Hres|exact Hsess].
Defined.

(** C6, as first stated, fails for the recorded pickle name: the failing
    name has replaced the name of the network that is still loaded. *)
Lemma failed_load_overwrites_pkl :
  (get_network demo_lib "stylegan2-missing.pkl" "G_ema" ready_world).1
    = Raises (LoadError "stylegan2-missing.pkl") /\
  pkl (self ready_world) = Some "stylegan2-demo.pkl" /\
  pkl (self (render demo_lib (with_pkl "stylegan2-missing.pkl" first_call)
               ready_world).2) = Some "stylegan2-missing.pkl" /\
  pkl (self (render demo_lib (with_pkl "stylegan2-missing.pkl" first_call)
               ready_world).2) <> pkl (self ready_world).
Proof.
  split; [reflexivity|]. split; [reflexivity|]. split; [reflexivity|].
  vm_compute. discriminate.
Qed.

(** ** A singular input transform *)






(** * Further properties *)

(** ** Switching the optimization space and the learning rate *)

Lemma latent_of_shape (b : bool) (l : list V) latent :
  latent_of b l = Returns latent -> latent_shape_ok latent l.
Proof.
  unfold latent_of. destruct b; [intros [= <-]; reflexivity|].
  destruct l as [|v l]; [discriminate|]. intros [= <-]. exact I.
Qed.

(** X1. [update_optim_space] with the mode the renderer is already in changes
    nothing at all.  With the other mode (and a base latent of at least one
    layer) it records the mode, replaces [self.w] by the base latent in the
    new shape, without gradient, builds a fresh optimizer that keeps the
    learning rate, clears [feat_refs] and [points0_pt], and leaves every
    other attribute, the result and the journal alone. *)
Theorem switching_space_restarts_from_base (b' : bool) (wd : World) b l o :
  w_plus (self wd) = Some b ->
  w0 (self wd) = Some l -> l <> [] ->
  w_optim (self wd) = Some o ->
  exists latent,
    latent_of b' l = Returns latent /\ latent_shape_ok latent l /\
    update_optim_space b' wd
    = (Returns tt,
       if bool_decide (b = b') then wd
       else {| self :=
                 set_points0_pt (Some None)
                   (set_feat_refs (Some None)
                      (set_w_optim
                         (Some {| lr := lr o; adam_state := fresh_adam_state |})
                         (set_w (Some {| data := latent; grad := None |})
                            (set_w_plus (Some b') (self wd)))));
               res := res wd; journal := journal wd |}).
Proof.
  intros Hb Hl Hne Ho.
  assert (Hlat : exists latent, latent_of b' l = Returns latent).
  { unfold latent_of. destruct b'; [eauto|]. destruct l; [done|eauto]. }
  destruct Hlat as [latent Hlat]. exists latent.
  split; [exact Hlat|]. split; [eapply latent_of_shape, Hlat|].
  destruct wd as [s r jl]. destruct s. reduce_world. subst.
  unfold update_optim_space. unfold_monad. reduce_world.
  destruct (bool_decide (b = b')); reduce_world; [reflexivity|].
  rewrite Hlat. reflexivity.
Qed.

Lemma switching_space_restarts_from_base_witness :
  w_plus (self tuned_world) = Some true /\
  w (self tuned_world)
    = Some {| data := WPlus (replicate 8 [2; 3]);
              grad := Some (WPlus (replicate 8 [1; 2])) |} /\
  exists latent,
    latent_of false (replicate 8 [0; 1]) = Returns latent /\
    latent_shape_ok latent (replicate 8 [0; 1]) /\
    update_optim_space false tuned_world
    = (Returns tt,
       if bool_decide (true = false) then tuned_world
       else {| self :=
                 set_points0_pt (Some None)
                   (set_feat_refs (Some None)
                      (set_w_optim
                         (Some {| lr := 1 # 1000; adam_state := fresh_adam_state |})
                         (set_w (Some {| data := latent; grad := None |})
                            (set_w_plus (Some false) (self tuned_world)))));
               res := res tuned_world; journal := journal tuned_world |}).
Proof.
  split; [reflexivity|]. split; [reflexivity|].
  apply (switching_space_restarts_from_base false tuned_world true
           (replicate 8 [0; 1])
           {| lr := 1 # 1000;
              adam_state := {| adam_steps := 2;
                               exp_avg := Some (WPlus (replicate 8 [1; 2]));
                               exp_avg_sq := Some (WPlus (replicate 8 [1; 2])) |} |});
    [reflexivity|reflexivity|discriminate|reflexivity].
Defined.

(** X2. Switching to the other mode and back (with a base latent of at least
    one layer) ends in the mode the renderer started in with [self.w] equal
    to the base latent in that mode: whatever the optimizer had made of the
    latent is gone, its gradient and the moments of the optimizer are reset,
    the feature cache is empty, and only the learning rate survives. *)
Theorem switching_there_and_back_forgets_latent (wd : World) b l o :
  w_plus (self wd) = Some b ->
  w0 (self wd) = Some l -> l <> [] ->
  w_optim (self wd) = Some o ->
  exists wd1 wd2 latent,
    update_optim_space (negb b) wd = (Returns tt, wd1) /\
    update_optim_space b wd1 = (Returns tt, wd2) /\
    latent_of b l = Returns latent /\
    wd2 = {| self :=
               set_points0_pt (Some None)
                 (set_feat_refs (Some None)
                    (set_w_optim
                       (Some {| lr := lr o; adam_state := fresh_adam_state |})
                       (set_w (Some {| data := latent; grad := None |})
                          (self wd))));
             res := res wd; journal := journal wd |}.
Proof.
  intros Hb Hl Hne Ho.
  assert (Hlat : forall b', exists latent, latent_of b' l = Returns latent).
  { intros b'. unfold latent_of. destruct b'; [eauto|]. destruct l; [done|eauto]. }
  destruct (Hlat (negb b)) as [latent1 Hlat1]. destruct (Hlat b) as [latent Hlat2].
  destruct wd as [s r jl]. destruct s. reduce_world. subst.
  eexists _, _, latent.
  split; [|split; [|split; [exact Hlat2|]]].
  - unfold update_optim_space. unfold_monad. reduce_world.
    rewrite bool_decide_eq_false_2 by (destruct b; discriminate).
    reduce_world. rewrite Hlat1. reduce_world. reflexivity.
  - unfold update_optim_space. unfold_monad. reduce_world.
    rewrite bool_decide_eq_false_2 by (destruct b; discriminate).
    reduce_world. rewrite Hlat2. reduce_world. reflexivity.
  - reflexivity.
Qed.

Lemma switching_there_and_back_forgets_latent_witness :
  w (self tuned_world)
    = Some {| data := WPlus (replicate 8 [2; 3]);
              grad := Some (WPlus (replicate 8 [1; 2])) |} /\
  exists wd1 wd2 latent,
    update_optim_space (negb true) tuned_world = (Returns tt, wd1) /\
    update_optim_space true wd1 = (Returns tt, wd2) /\
    latent_of true (replicate 8 [0; 1]) = Returns latent /\
    wd2 = {| self :=
               set_points0_pt (Some None)
                 (set_feat_refs (Some None)
                    (set_w_optim
                       (Some {| lr := 1 # 1000; adam_state := fresh_adam_state |})
                       (set_w (Some {| data := latent; grad := None |})
                          (self tuned_world))));
             res := res tuned_world; journal := journal tuned_world |}.
Proof.
  split; [reflexivity|].
  apply (switching_there_and_back_forgets_latent tuned_world true
           (replicate 8 [0; 1])
           {| lr := 1 # 1000;
              adam_state := {| adam_steps := 2;
                               exp_avg := Some (WPlus (replicate 8 [1; 2]));
                               exp_avg_sq := Some (WPlus (replicate 8 [1; 2])) |} |});
    [reflexivity|reflexivity|discriminate|reflexivity].
Defined.

(** [update_lr] touches nothing but the optimizer.  Without an optimizer it
    raises [AttributeError] and changes nothing; with an optimizer but no
    latent it raises after [del self.w_optim], so the optimizer is gone. *)
Lemma update_lr_spec (lr' : Q) (wd : World) :
  update_lr lr' wd
  = (match w_optim (self wd), w (self wd) with
     | Some _, Some _ => Returns tt
     | Some _, None => Raises (AttributeError "w")
     | None, _ => Raises (AttributeError "w_optim")
     end,
     {| self :=
          set_w_optim
            (match w_optim (self wd), w (self wd) with
             | Some _, Some _ =>
                 Some {| lr := lr'; adam_state := fresh_adam_state |}
             | _, _ => None
             end) (self wd);
        res := res wd; journal := journal wd |}).
Proof.
  destruct wd as [s r jl]. destruct s as [? ? ? ? ? ? ? ? ? ? wv ov ? ? ? ?].
  unfold update_lr. unfold_monad. reduce_world.
  destruct ov, wv; reflexivity.
Qed.



(** ** The setters on a new session *)



(** ** The feature references (lines 374-380) *)

Lemma index_dim_mod (n i : Z) :
  - n <= i < n -> index_dim n i = Returns (i `mod` n).
Proof.
  intros Hi. unfold index_dim.
  destruct (Z.leb_spec 0 i), (Z.ltb_spec i n); simpl; try lia.
  - rewrite Z.mod_small by lia. reflexivity.
  - destruct (Z.leb_spec (- n) i), (Z.ltb_spec i 0); simpl; try lia.
    f_equal. rewrite <- (Z.mod_add i 1 n), Z.mod_small by lia. lia.
Qed.

Lemma index_dim_outside (n i : Z) :
  ~ (- n <= i < n) ->
  exists e, index_dim n i = Raises e /\ (fits_int64 i = true -> e = IndexError).
Proof.
  intros Hi. unfold index_dim.
  destruct (Z.leb_spec 0 i), (Z.ltb_spec i n); simpl; try lia;
    destruct (Z.leb_spec (- n) i), (Z.ltb_spec i 0); simpl; try lia;
    destruct (fits_int64 i); eexists; (split; [reflexivity|]);
    first [reflexivity | discriminate].
Qed.

Lemma feature_at_readable (fm : FeatureMap) (h w : Z) (p : Point) :
  addressable h w p = true ->
  feature_at fm h w p.1 p.2 = Returns (read_at fm h w p).
Proof.
  unfold feature_at, addressable, read_at.
  rewrite !andb_true_iff, !Z.leb_le, !Z.ltb_lt. intros Hp.
  rewrite (index_dim_mod h), (index_dim_mod w) by lia. reflexivity.
Qed.

Lemma feature_at_unreadable (fm : FeatureMap) (h w : Z) (p : Point) :
  addressable h w p = false ->
  exists e, feature_at fm h w p.1 p.2 = Raises e /\
    (fits_int64 p.1 && fits_int64 p.2 = true -> e = IndexError).
Proof.
  unfold feature_at, addressable. intros Hp.
  destruct (decide (- h <= p.1 < h)) as [Hrow|Hrow].
  - assert (Hcol : ~ (- w <= p.2 < w)).
    { intros Hcol. rewrite (proj2 (Z.leb_le _ _)), (proj2 (Z.ltb_lt _ _)),
        (proj2 (Z.leb_le _ _)), (proj2 (Z.ltb_lt _ _)) in Hp by lia.
      discriminate Hp. }
    rewrite (index_dim_mod h) by exact Hrow.
    destruct (index_dim_outside w p.2 Hcol) as (e & -> & He).
    exists e. split; [reflexivity|]. intros Hfit.
    apply andb_prop in Hfit as [_ Hfit]. apply He, Hfit.
  - destruct (index_dim_outside h p.1 Hrow) as (e & -> & He).
    exists e. split; [destruct (index_dim w p.2); reflexivity|]. intros Hfit.
    apply andb_prop in Hfit as [Hfit _]. apply He, Hfit.
Qed.

Lemma collect_refs_spec (fm : FeatureMap) (h w : Z) (pts : list Point) :
  forall acc,
  (forallb (addressable h w) pts = true ->
   collect_refs fm h w pts acc = (acc ++ (read_at fm h w <$> pts), None)) /\
  (forall j p, pts !! j = Some p -> addressable h w p = false ->
   forallb (addressable h w) (take j pts) = true ->
   exists e,
     collect_refs fm h w pts acc
     = (acc ++ (read_at fm h w <$> take j pts), Some e) /\
     (fits_int64 p.1 && fits_int64 p.2 = true -> e = IndexError)).
Proof.
  induction pts as [|q pts IH]; intros acc; simpl.
  - split; [intros _; rewrite app_nil_r; reflexivity|]. intros j p Hj. done.
  - split.
    + intros Hall. apply andb_prop in Hall as [Hq Hall].
      rewrite (feature_at_readable fm h w q Hq).
      destruct (IH (acc ++ [read_at fm h w q])) as [Hok _].
      rewrite (Hok Hall), <- app_assoc. reflexivity.
    + intros [|j] p Hj Hp Hpre; simpl in *.
      * injection Hj as ->.
        destruct (feature_at_unreadable fm h w p Hp) as (e & -> & He).
        exists e. rewrite app_nil_r. split; [reflexivity|exact He].
      * apply andb_prop in Hpre as [Hq Hpre].
        rewrite (feature_at_readable fm h w q Hq).
        destruct (IH (acc ++ [read_at fm h w q])) as [_ Hfail].
        destruct (Hfail j p Hj Hp Hpre) as (e & -> & He).
        exists e. rewrite <- app_assoc. split; [reflexivity|exact He].
Qed.

(** X5. The references of a drag step are the features at the points, one
    for each point and in their order, when every coordinate is a valid
    index; a negative coordinate, down to minus the image size, reads from
    the opposite edge. *)
Theorem references_are_features_at_points (fm : FeatureMap) (h w : Z)
    (pts : list Point) :
  forallb (addressable h w) pts = true ->
  collect_refs fm h w pts [] = (read_at fm h w <$> pts, None) /\
  (forall j p, pts !! j = Some p -> in_image h w p = true ->
     (read_at fm h w <$> pts) !! j = Some (fm p.1 p.2)).
Proof.
  intros Hall. split; [apply (collect_refs_spec fm h w pts []), Hall|].
  intros j p Hj Hin. rewrite list_lookup_fmap, Hj. simpl. f_equal.
  unfold in_image in Hin. unfold read_at.
  rewrite !andb_true_iff, !Z.leb_le, !Z.ltb_lt in Hin.
  rewrite !Z.mod_small by lia. reflexivity.
Qed.

Lemma references_are_features_at_points_witness :
  collect_refs ramp 16 16 [(3, 3); (-1, 5)] [] = ([[51]; [245]], None).
Proof.
  apply (references_are_features_at_points ramp 16 16 [(3, 3); (-1, 5)]).
  reflexivity.
Defined.

(** X6. A point whose coordinate is no valid index ends the collection of
    the references with an exception, which is an [IndexError] when both
    coordinates fit into 64 bits; the list it leaves behind holds the
    references of the points before it only, so it is shorter than the list
    of points. *)
Theorem unreadable_point_truncates_references (fm : FeatureMap) (h w : Z)
    (pts : list Point) (j : nat) (p : Point) :
  pts !! j = Some p -> addressable h w p = false ->
  forallb (addressable h w) (take j pts) = true ->
  exists e,
    collect_refs fm h w pts [] = (read_at fm h w <$> take j pts, Some e) /\
    (fits_int64 p.1 && fits_int64 p.2 = true -> e = IndexError) /\
    (length (collect_refs fm h w pts []).1 < length pts)%nat.
Proof.
  intros Hj Hp Hpre.
  destruct (collect_refs_spec fm h w pts []) as [_ Hfail].
  destruct (Hfail j p Hj Hp Hpre) as (e & Hrun & He).
  exists e. rewrite Hrun. split; [reflexivity|]. split; [exact He|].
  simpl. rewrite length_fmap, length_take. apply lookup_lt_Some in Hj. lia.
Qed.

Lemma unreadable_point_truncates_references_witness :
  collect_refs ramp 16 16 [(3, 3); (16, 5); (4, 4)] [] = ([[51]], Some IndexError) /\
  Nat.lt (length (collect_refs ramp 16 16 [(3, 3); (16, 5); (4, 4)] []).1) 3.
Proof.
  destruct (unreadable_point_truncates_references ramp 16 16
              [(3, 3); (16, 5); (4, 4)] 1 (16, 5) eq_refl eq_refl eq_refl)
    as (e & Hrun & He & Hlen).
  rewrite (He eq_refl) in Hrun. split; [exact Hrun|exact Hlen].
Defined.

Lemma l2sq_refl (a : Vec) : l2sq a a = 0.
Proof. induction a as [|x a IH]; simpl; [reflexivity|]. rewrite IH. lia. Qed.

Lemma in_image_window (h w r : Z) (p : Point) :
  in_image h w p = true -> 0 <= r ->
  window_nonempty h w r p = true /\ in_window h w r p p.
Proof.
  unfold in_image, window_nonempty, in_window. intros Hin Hr.
  destruct (Z.leb_spec 0 p.1), (Z.ltb_spec p.1 h), (Z.leb_spec 0 p.2),
    (Z.ltb_spec p.2 w); try discriminate.
  split; [|lia]. apply andb_true_intro. split; apply Z.ltb_lt; lia.
Qed.

(** The tracker returns the list it was given when every point is sent to
    itself. *)
Lemma track_points_fixed (norm : Vec -> Vec -> Z) (fm : FeatureMap) (h w r2 : Z)
    (refs : list Vec)
    (pts : list Point) :
  length refs = length pts ->
  windows_nonempty h w (scaled_radius r2 h) pts = true ->
  (forall j p ref q, pts !! j = Some p -> refs !! j = Some ref ->
     track_point norm fm h w (scaled_radius r2 h) ref p = Returns q -> q = p) ->
  track_points norm fm h w r2 refs pts = (pts, None).
Proof.
  intros Hlen Hwin Hfix.
  destruct (track_points_spec norm fm h w r2 refs pts Hlen Hwin)
    as (tracked & -> & Hl & Hall).
  f_equal. apply list_eq. intros j.
  destruct (pts !! j) as [p|] eqn:Hj.
  - destruct (Hall j p Hj) as (ref & q & Href & Hq & ->).
    f_equal. eapply Hfix; eassumption.
  - apply lookup_ge_None. apply lookup_ge_None in Hj. lia.
Qed.

Lemma windows_nonempty_in_image (h w r : Z) (pts : list Point) :
  forallb (in_image h w) pts = true -> 0 <= r ->
  windows_nonempty h w r pts = true.
Proof.
  unfold windows_nonempty. rewrite !forallb_forall. intros Hall Hr p Hp.
  apply in_image_window; [apply Hall, Hp|exact Hr].
Qed.

Lemma in_image_addressable (h w : Z) (pts : list Point) :
  forallb (in_image h w) pts = true -> forallb (addressable h w) pts = true.
Proof.
  rewrite !forallb_forall. intros Hall p Hp. specialize (Hall p Hp).
  unfold in_image in Hall. unfold addressable.
  rewrite !andb_true_iff, !Z.leb_le, !Z.ltb_lt in *. lia.
Qed.

Lemma read_at_in_image (fm : FeatureMap) (h w : Z) (p : Point) :
  in_image h w p = true -> read_at fm h w p = fm p.1 p.2.
Proof.
  unfold in_image, read_at. rewrite !andb_true_iff, !Z.leb_le, !Z.ltb_lt.
  intros Hin. rewrite !Z.mod_small by lia. reflexivity.
Qed.

(** X7. The first drag step after a reset takes its references from the
    feature map it then searches.  The computed norm of a difference is
    never negative and is zero for a vector and itself, so a point inside
    the image at whose window no other position has the computed norm zero
    to the point's own feature is found where it is: the tracker returns
    the points it was given. *)
Theorem first_drag_step_keeps_distinct_points (norm : Vec -> Vec -> Z)
    (fm : FeatureMap) (h w r2 : Z) (pts : list Point) :
  (forall a, norm a a = 0) -> (forall a b, 0 <= norm a b) ->
  0 <= scaled_radius r2 h ->
  forallb (in_image h w) pts = true ->
  (forall p q, p ∈ pts -> in_window h w (scaled_radius r2 h) p q ->
     norm (fm q.1 q.2) (fm p.1 p.2) = 0 -> q = p) ->
  exists refs,
    collect_refs fm h w pts [] = (refs, None) /\
    track_points norm fm h w r2 refs pts = (pts, None).
Proof.
  intros Hzero Hnonneg Hr Hin Huniq.
  exists (read_at fm h w <$> pts). split.
  { apply (collect_refs_spec fm h w pts []), in_image_addressable, Hin. }
  apply track_points_fixed.
  - apply length_fmap.
  - apply windows_nonempty_in_image; assumption.
  - intros j p ref q Hj Href Hq.
    assert (Hp : in_image h w p = true).
    { rewrite forallb_forall in Hin. apply Hin, list_elem_of_In.
      apply list_elem_of_lookup. eauto. }
    rewrite list_lookup_fmap, Hj in Href. injection Href as <-.
    rewrite (read_at_in_image fm h w p Hp) in Hq.
    destruct (in_image_window h w (scaled_radius r2 h) p Hp Hr) as [Hwin Hself].
    destruct (track_point_spec norm fm h w (scaled_radius r2 h) (fm p.1 p.2) p Hwin)
      as (q' & Hq' & Hinw & Hmin).
    rewrite Hq in Hq'. injection Hq' as <-.
    apply Huniq; [apply list_elem_of_lookup; eauto|exact Hinw|].
    destruct (Hmin p Hself) as [Hle _]. rewrite Hzero in Hle.
    pose proof (Hnonneg (fm q.1 q.2) (fm p.1 p.2)). lia.
Qed.

Lemma first_drag_step_keeps_distinct_points_witness :
  exists refs,
    collect_refs ramp 16 16 [(3, 3); (8, 9)] [] = (refs, None) /\
    track_points exact_norm ramp 16 16 128 refs [(3, 3); (8, 9)]
    = ([(3, 3); (8, 9)], None).
Proof.
  apply (first_drag_step_keeps_distinct_points exact_norm ramp 16 16 128
           [(3, 3); (8, 9)]).
  - intros a. unfold exact_norm. rewrite l2sq_refl. reflexivity.
  - intros a b. apply Z.sqrt_nonneg.
  - vm_compute. discriminate.
  - reflexivity.
  - intros [p1 p2] [q1 q2] Hp (_ & [_ Hcol]) Hzero.
    assert (Hp2 : 0 <= p2 < 16).
    { apply elem_of_cons in Hp as [[= -> ->]|Hp]; [lia|].
      apply elem_of_cons in Hp as [[= -> ->]|Hp]; [lia|].
      apply elem_of_nil in Hp. contradiction. }
    unfold exact_norm, ramp in Hzero. cbn [l2sq fst snd] in *.
    set (d := q1 * 16 + q2 - (p1 * 16 + p2)) in *.
    assert (Hd : d = 0).
    { destruct (Z.eq_dec d 0) as [?|Hne]; [assumption|exfalso].
      assert (Hsq : 1 <= d * d) by nia.
      assert (Hone : 1 * 1 <= 2 ^ 40 * (d * d + 0))
        by (change (2 ^ 40) with 1099511627776; lia).
      apply Z.sqrt_le_square in Hone; lia. }
    subst d. f_equal; lia.
Defined.

(** X8. When the search radius [round(r2 / 512 * h)] is zero, which is the
    case for [-256 <= r2 * h <= 256] (a half rounds to the even side), the
    search window of a point inside the image is the point itself, and the
    tracker returns the points it was given whatever the features are. *)
Theorem zero_radius_disables_tracking (norm : Vec -> Vec -> Z) (fm : FeatureMap)
    (h w r2 : Z)
    (refs : list Vec) (pts : list Point) :
  - 256 <= r2 * h <= 256 ->
  length refs = length pts ->
  forallb (in_image h w) pts = true ->
  scaled_radius r2 h = 0 /\
  track_points norm fm h w r2 refs pts = (pts, None).
Proof.
  intros Hr Hlen Hin.
  assert (Hzero : scaled_radius r2 h = 0).
  { unfold scaled_radius, py_round_div.
    destruct (Z.le_gt_cases 0 (r2 * h)) as [Hpos|Hneg].
    - rewrite Z.div_small, Z.mod_small by lia.
      destruct (Z.ltb_spec (2 * (r2 * h)) 512); [reflexivity|].
      destruct (Z.ltb_spec 512 (2 * (r2 * h))); [lia|reflexivity].
    - assert (Hd : (r2 * h) `div` 512 = -1)
        by (symmetry; apply (Z.div_unique _ _ _ (r2 * h + 512)); lia).
      assert (Hm : (r2 * h) `mod` 512 = r2 * h + 512)
        by (symmetry; apply (Z.mod_unique _ _ (-1)); lia).
      rewrite Hd, Hm.
      destruct (Z.ltb_spec (2 * (r2 * h + 512)) 512); [lia|].
      destruct (Z.ltb_spec 512 (2 * (r2 * h + 512))); [reflexivity|].
      reflexivity. }
  split; [exact Hzero|].
  apply track_points_fixed.
  - exact Hlen.
  - apply windows_nonempty_in_image; [exact Hin|lia].
  - rewrite Hzero. intros j p ref q Hj Href Hq.
    assert (Hp : in_image h w p = true).
    { rewrite forallb_forall in Hin. apply Hin, list_elem_of_In.
      apply list_elem_of_lookup. eauto. }
    destruct (in_image_window h w 0 p Hp) as [Hwin _]; [lia|].
    destruct (track_point_spec norm fm h w 0 ref p Hwin) as (q' & Hq' & Hinw & _).
    rewrite Hq in Hq'. injection Hq' as <-.
    unfold in_window in Hinw. destruct p, q. simpl in *. f_equal; lia.
Qed.

Lemma zero_radius_disables_tracking_witness :
  scaled_radius 12 16 = 0 /\
  track_points exact_norm stripes 16 16 12 [[0; 0]; [7; 7]] [(3, 3); (8, 9)]
  = ([(3, 3); (8, 9)], None).
Proof.
  apply (zero_radius_disables_tracking exact_norm stripes 16 16 12); [lia|reflexivity..].
Defined.

(** ** The loss of a step that updates *)

Lemma beyond_needs_supervision (h : Z) (p t : Point) :
  beyond_stop_threshold h p t = true -> needs_supervision p t = true.
Proof.
  unfold beyond_stop_threshold, needs_supervision.
  intros Hb. apply Z.ltb_lt in Hb. apply Z.ltb_lt.
  pose proof (norm_sq_nonneg (direction p t)).
  assert (1024 <= Z.max (2 * h) (2 * 512)) by lia.
  nia.
Qed.

(** X9. A drag step that clears the stop flag has a point further than the
    threshold from its target, and that point is under motion supervision:
    the loss the optimizer then descends has at least one motion term. *)
Theorem cleared_stop_flag_has_motion_term (h : Z) (pts targets : list Point)
    (e : option Exn) :
  motion_stop h pts targets = (false, e) ->
  exists p t, (p, t) ∈ supervised pts targets /\
    (euclid p t > stop_threshold h)%R.
Proof.
  intros Hrun.
  apply stop_loop_false in Hrun as [?|(i & p & t & Hp & Ht & Hb)]; [discriminate|].
  exists p, t. split.
  - unfold supervised. apply list_elem_of_filter. split.
    + apply (beyond_needs_supervision h), Hb.
    + apply list_elem_of_lookup. exists i. apply lookup_zip_Some. auto.
  - apply beyond_stop_threshold_spec, Hb.
Qed.

Lemma cleared_stop_flag_has_motion_term_witness :
  exists p t, (p, t) ∈ supervised [(3, 3); (5, 5)] [(3, 4); (5, 9)] /\
    (euclid p t > stop_threshold 16)%R.
Proof.
  apply (cleared_stop_flag_has_motion_term 16 [(3, 3); (5, 5)] [(3, 4); (5, 9)] None).
  reflexivity.
Defined.

Lemma stop_loop_complete (h : Z) (targets : list Point) :
  forall (pts : list Point) (j : nat) (stop b : bool),
  (j <= length targets)%nat ->
  stop_loop h targets j pts stop = (b, None) ->
  (j + length pts <= length targets)%nat.
Proof.
  intros pts. induction pts as [|p pts IH]; intros j stop b Hj; simpl.
  - intros _. lia.
  - destruct (targets !! j) as [t|] eqn:Ht; [|discriminate].
    apply lookup_lt_Some in Ht.
    intros Hrun. apply IH in Hrun; lia.
Qed.

Lemma stop_loop_short (h : Z) (targets : list Point) :
  forall (pts : list Point) (j : nat) (stop : bool),
  (j <= length targets < j + length pts)%nat ->
  exists b, stop_loop h targets j pts stop = (b, Some IndexError).
Proof.
  intros pts. induction pts as [|p pts IH]; intros j stop Hlen; simpl in *.
  - lia.
  - destruct (targets !! j) as [t|] eqn:Ht; [|eauto].
    apply lookup_lt_Some in Ht. apply IH. lia.
Qed.

(** ** Transfers through the pinned buffers *)

Lemma through_pinned_spec (junk : list Z) (x : Buf)
    (bufs : gmap (list nat * string) Buf) :
  pinned_ok bufs ->
  through_pinned junk x bufs
  = (Returns (to_ "cpu" x), <[buf_key x := to_ "cpu" x]> bufs).
Proof.
  intros Hok. unfold through_pinned, _get_pinned_buf.
  destruct (bufs !! buf_key x) as [buf|] eqn:Hb.
  - destruct (Hok _ _ Hb) as [Hk Hd]. unfold copy_.
    rewrite bool_decide_eq_true_2 by exact Hk.
    unfold buf_key in Hk. injection Hk as Hs Ht.
    unfold to_. rewrite Hs, Ht, Hd. reflexivity.
  - unfold copy_, torch_empty, buf_key. cbn [buf_shape buf_dtype buf_device buf_values].
    rewrite bool_decide_eq_true_2 by reflexivity.
    rewrite insert_insert_eq. reflexivity.
Qed.

Lemma pinned_ok_insert (x : Buf) (bufs : gmap (list nat * string) Buf) :
  pinned_ok bufs -> pinned_ok (<[buf_key x := to_ "cpu" x]> bufs).
Proof.
  intros Hok k b Hk. destruct (decide (k = buf_key x)) as [->|Hne].
  - rewrite lookup_insert_eq in Hk. injection Hk as <-. split; reflexivity.
  - rewrite lookup_insert_ne in Hk by congruence. apply Hok, Hk.
Qed.

(** X10. A transfer returns a tensor with the values, the shape and the
    dtype of its argument, on the host for [to_cpu] and on the device for
    [to_device], whatever [torch.empty] left in a new buffer and whatever an
    earlier transfer left in a reused one.  The dictionary of buffers gains
    at most the key of the argument, and every buffer in it still sits under
    its own shape and dtype, on the host. *)
Theorem transfers_preserve_content (junk : list Z) (x : Buf)
    (bufs : gmap (list nat * string) Buf) :
  pinned_ok bufs ->
  (to_cpu junk x bufs).1 = Returns (to_ "cpu" x) /\
  (to_device junk x bufs).1 = Returns (to_ "cuda" x) /\
  (to_device junk x bufs).2 = (to_cpu junk x bufs).2 /\
  pinned_ok (to_cpu junk x bufs).2 /\
  dom (to_cpu junk x bufs).2 = {[buf_key x]} ∪ dom bufs /\
  (forall k, k <> buf_key x -> (to_cpu junk x bufs).2 !! k = bufs !! k).
Proof.
  intros Hok. unfold to_cpu, to_device.
  rewrite (through_pinned_spec junk x bufs Hok). cbn [fst snd].
  split; [reflexivity|]. split; [reflexivity|]. split; [reflexivity|].
  split; [apply pinned_ok_insert, Hok|]. split; [apply dom_insert_L|].
  intros k Hk. apply lookup_insert_ne. congruence.
Qed.

Lemma transfers_preserve_content_witness :
  let x := {| buf_shape := [2; 2]%nat; buf_dtype := "uint8";
              buf_device := "cuda"; buf_values := [1; 2; 3; 4] |} in
  (to_cpu [9; 9; 9; 9] x ∅).1 = Returns (to_ "cpu" x) /\
  (to_device [9; 9; 9; 9] x ∅).1 = Returns (to_ "cuda" x) /\
  (to_device [9; 9; 9; 9] x ∅).2 = (to_cpu [9; 9; 9; 9] x ∅).2 /\
  pinned_ok (to_cpu [9; 9; 9; 9] x ∅).2 /\
  dom (to_cpu [9; 9; 9; 9] x ∅).2 = {[buf_key x]} ∪ dom (∅ : gmap (list nat * string) Buf) /\
  (forall k, k <> buf_key x ->
     (to_cpu [9; 9; 9; 9] x ∅).2 !! k = (∅ : gmap (list nat * string) Buf) !! k).
Proof.
  intros x. apply (transfers_preserve_content [9; 9; 9; 9] x ∅).
  intros k b Hk. rewrite lookup_empty in Hk. discriminate.
Defined.

(** X11. Two transfers of tensors of one shape and dtype share a buffer: the
    second adds no key to the dictionary, and it returns the values of its
    own argument, not those the first transfer left in the buffer. *)
Theorem same_shape_transfer_reuses_buffer (junk junk' : list Z) (x y : Buf)
    (bufs : gmap (list nat * string) Buf) :
  pinned_ok bufs -> buf_key x = buf_key y ->
  (to_cpu junk' x (to_device junk y bufs).2).1 = Returns (to_ "cpu" x) /\
  dom (to_cpu junk' x (to_device junk y bufs).2).2 = dom (to_device junk y bufs).2 /\
  (to_device junk y bufs).2 !! buf_key x = Some (to_ "cpu" y) /\
  (to_cpu junk' x (to_device junk y bufs).2).2 !! buf_key x = Some (to_ "cpu" x).
Proof.
  intros Hok Hkey. unfold to_cpu, to_device.
  rewrite (through_pinned_spec junk y bufs Hok). cbn [fst snd].
  rewrite (through_pinned_spec junk' x _ (pinned_ok_insert y bufs Hok)).
  cbn [fst snd]. rewrite Hkey. split; [reflexivity|]. split; [|split].
  - rewrite insert_insert_eq, !dom_insert_L. reflexivity.
  - apply lookup_insert_eq.
  - apply lookup_insert_eq.
Qed.

Lemma same_shape_transfer_reuses_buffer_witness :
  let x := {| buf_shape := [2; 2]%nat; buf_dtype := "uint8";
              buf_device := "cuda"; buf_values := [1; 2; 3; 4] |} in
  let y := {| buf_shape := [2; 2]%nat; buf_dtype := "uint8";
              buf_device := "cpu"; buf_values := [5; 6; 7; 8] |} in
  (to_cpu [] x (to_device [] y ∅).2).1 = Returns (to_ "cpu" x) /\
  dom (to_cpu [] x (to_device [] y ∅).2).2 = dom (to_device [] y ∅).2 /\
  (to_device [] y ∅).2 !! buf_key x = Some (to_ "cpu" y) /\
  (to_cpu [] x (to_device [] y ∅).2).2 !! buf_key x = Some (to_ "cpu" x).
Proof.
  intros x y. apply (same_shape_transfer_reuses_buffer [] [] x y ∅).
  - intros k b Hk. rewrite lookup_empty in Hk. discriminate.
  - reflexivity.
Defined.

(** ** The caches of [get_network] *)

(** X12. [get_network] consults the loaders at most once for a pickle: a
    second call for the same pickle and key gives the outcome of the first,
    the exception included, from the two caches alone (whatever the loaders
    would now answer), and changes nothing in the renderer. *)
Theorem get_network_answers_from_cache lib lib' name key wd :
  get_network lib' name key (get_network lib name key wd).2
  = get_network lib name key wd.
Proof.
  open_world wd.
  unfold get_network, build_net. unfold_monad. reduce_world.
  repeat (reduce_world; rewrite ?lookup_insert_eq; try case_innermost);
    simplify_eq; reflexivity.
Qed.

(** ** The session that [init_network] starts *)

Lemma init_network_post lib a wd :
  (init_network lib a wd).1 = Returns tt ->
  let s' := self (init_network lib a wd).2 in
  exists g l latent,
    G s' = Some g /\ pkl s' = Some (arg_pkl a) /\
    w0_seed s' = Some (arg_w0_seed a) /\ w_plus s' = Some (arg_w_plus a) /\
    w0 s' = Some l /\
    l = (if _is_old s' then replicate 16 (style_forward g (randn lib (arg_w0_seed a)))
         else mapping g (randn lib (arg_w0_seed a)) (arg_trunc_psi a)
                (arg_trunc_cutoff a)) /\
    latent_of (arg_w_plus a) l = Returns latent /\
    w s' = Some {| data := latent; grad := None |} /\
    w_optim s' = Some {| lr := arg_lr a; adam_state := fresh_adam_state |} /\
    feat_refs s' = Some None /\ points0_pt s' = Some None /\
    feat0_resize s' = feat0_resize (self wd) /\ points s' = points (self wd) /\
    res_img_resolution (res (init_network lib a wd).2) = Some (img_resolution g).
Proof.
  cbv zeta.
  pose proof (get_network_frame lib (arg_pkl a) "G_ema") as Hframe.
  open_world wd.
  unfold init_network, set_input_transform, latent_of, session_untouched in *.
  unfold_monad. reduce_world.
  match goal with
  | |- context [get_network lib ?n ?k ?W] =>
      specialize (Hframe W); destruct (get_network lib n k W) as [o wdg]
  end.
  destruct wdg as [sg rg jg]. reduce_world.
  destruct Hframe as (Hres & Hjl & Hpkl & Hsess & _). subst rg jg.
  destruct sg. reduce_world. subst.
  destruct Hsess as (_ & _ & _ & _ & _ & _ & _ & _ & -> & ->).
  run; intros Hrun; try discriminate;
    repeat match goal with g : Generator |- _ => destruct g as [?gr ?gn ?gh ?gt ?gm ?gs ?gl ?gy ?go] end;
    cbn [set_img_resolution set_transform style_forward mapping img_resolution] in *;
    eexists _, _, _;
    repeat (split; [first [reflexivity | symmetry; eassumption]|]); reflexivity.
Qed.

Lemma needs_init_set (s : Renderer) (a : Args) g :
  G s = Some g -> pkl s = Some (arg_pkl a) ->
  w0_seed s = Some (arg_w0_seed a) -> w_plus s = Some (arg_w_plus a) ->
  needs_init s a = arg_reset_w a.
Proof.
  intros Hg Hp Hz Hb. unfold needs_init. rewrite Hg, Hp, Hz, Hb.
  rewrite !bool_decide_eq_false_2 by (intros Hne; apply Hne; reflexivity).
  reflexivity.
Qed.

(** X13. An [init_network] that returns leaves a session at its starting
    point: the network and the call's pickle name, seed and [w_plus] flag
    are stored; the base latent code is the mapping of the seed's noise; the
    latent code is the base code, or its first layer when [w_plus] is off,
    without a gradient; the optimizer is new, with the call's learning rate;
    the feature references and the initial points are [None]; the result
    carries the resolution of the stored network.  [render] called again
    with the same arguments reinitializes only when [reset_w] is set.  The
    stored points and the feature snapshot of an earlier session are not
    cleared. *)
Theorem init_network_starts_session lib a wd :
  (init_network lib a wd).1 = Returns tt ->
  let s' := self (init_network lib a wd).2 in
  (exists g l latent,
    G s' = Some g /\ pkl s' = Some (arg_pkl a) /\
    w0_seed s' = Some (arg_w0_seed a) /\ w_plus s' = Some (arg_w_plus a) /\
    w0 s' = Some l /\
    l = (if _is_old s' then replicate 16 (style_forward g (randn lib (arg_w0_seed a)))
         else mapping g (randn lib (arg_w0_seed a)) (arg_trunc_psi a)
                (arg_trunc_cutoff a)) /\
    latent_of (arg_w_plus a) l = Returns latent /\
    w s' = Some {| data := latent; grad := None |} /\
    w_optim s' = Some {| lr := arg_lr a; adam_state := fresh_adam_state |} /\
    feat_refs s' = Some None /\ points0_pt s' = Some None /\
    feat0_resize s' = feat0_resize (self wd) /\ points s' = points (self wd) /\
    res_img_resolution (res (init_network lib a wd).2) = Some (img_resolution g)) /\
  needs_init s' a = arg_reset_w a.
Proof.
  intros Hrun. cbv zeta.
  pose proof (init_network_post lib a wd Hrun) as Hpost. cbv zeta in Hpost.
  split; [exact Hpost|].
  destruct Hpost as (g & l & latent & Hg & Hp & Hz & Hb & _).
  apply (needs_init_set _ a g); assumption.
Qed.

Lemma init_network_starts_session_witness :
  let a := with_pkl sg3 first_call in
  let s' := self (init_network demo_lib a ready_world).2 in
  (exists g l latent,
    G s' = Some g /\ pkl s' = Some (arg_pkl a) /\
    w0_seed s' = Some (arg_w0_seed a) /\ w_plus s' = Some (arg_w_plus a) /\
    w0 s' = Some l /\
    l = (if _is_old s' then replicate 16 (style_forward g (randn demo_lib (arg_w0_seed a)))
         else mapping g (randn demo_lib (arg_w0_seed a)) (arg_trunc_psi a)
                (arg_trunc_cutoff a)) /\
    latent_of (arg_w_plus a) l = Returns latent /\
    w s' = Some {| data := latent; grad := None |} /\
    w_optim s' = Some {| lr := arg_lr a; adam_state := fresh_adam_state |} /\
    feat_refs s' = Some None /\ points0_pt s' = Some None /\
    feat0_resize s' = feat0_resize (self ready_world) /\
    points s' = points (self ready_world) /\
    res_img_resolution (res (init_network demo_lib a ready_world).2)
      = Some (img_resolution g)) /\
  needs_init s' a = arg_reset_w a.
Proof.
  intros a. apply (init_network_starts_session demo_lib a ready_world).
  reflexivity.
Defined.

(** ** What [render] reports *)

Lemma events_of_app {A} (m : M A) (wd : World) (evs : list Event) :
  journal (m wd).2 = journal wd ++ evs -> events_of m wd = evs.
Proof. intros Hj. unfold events_of. rewrite Hj. apply drop_app_length. Qed.

(** The outcome of the statements after the [try] is decided by the image
    that the [try] block has stored. *)
Lemma render_finish_image wd :
  match res_image (res wd) with
  | None => exists r, (render_finish wd).1 = Returns r /\ res_image r = None
  | Some (TensorImage px) =>
      exists r, (render_finish wd).1 = Returns r /\ res_image r = Some (NumpyImage px)
  | Some (PilImage _) => (render_finish wd).1 = Raises (AttributeError "shape")
  | Some (NumpyImage _) =>
      (render_finish wd).1 = Raises (RuntimeError "torch.empty(): numpy dtype")
  end.
Proof.
  destruct wd as [s r jl]. destruct s. destruct r as [? ? ? ? ? err ? ? img].
  unfold render_finish, to_cpu_numpy. unfold_monad.
  destruct img as [[px|px|px]|], err as [v|]; reduce_world;
    first [reflexivity | eexists; split; reflexivity].
Qed.

(** The three ways in which the [try] block of [render] can end: the drag
    step ran to its end, it ended in the debugger, or [init_network] raised
    and the drag step was not entered. *)
Lemma render_stage3_report lib a wd :
  let wd3 := render_stage3 lib a wd in
  exists evs,
    journal wd3 = journal wd ++ evs /\
    ((CallRenderDragImpl ∈ evs /\ existsb is_post_mortem evs = false /\
      exists px, res_image (res wd3)
                 = Some (if arg_to_pil a then PilImage px else TensorImage px)) \/
     (CallRenderDragImpl ∈ evs /\ existsb is_post_mortem evs = true /\
      res_image (res wd3) = None) \/
     ((CallRenderDragImpl ∉ evs) /\ existsb is_post_mortem evs = false /\
      res_image (res wd3) = None /\ needs_init (self wd) a = true /\
      exists e, res_error (res wd3) = Some (Captured e))) /\
    (needs_init (self wd) a = false -> res_error (res wd3) = None).
Proof.
  cbv zeta. unfold render_stage3, render_stage2.
  destruct (needs_init (self wd) a) eqn:Hneed.
  - pose proof (init_network_journal lib a (render_stage1 a wd)) as (Hjl & _ & Himg).
    destruct (init_network lib a (render_stage1 a wd)) as [[[]|e] wd1];
      cbn [snd] in Hjl, Himg; unfold render_stage1 in Hjl, Himg; reduce_world.
    + destruct (_render_drag_impl lib a wd1) as [o wd2] eqn:Hrun.
      apply drag_impl_effects in Hrun
        as (_ & _ & _ & _ & _ & _ & _ & _ & _ & evs & Hj & Hev & Hpm).
      cbn [snd]. exists (CallInitNetwork :: CallRenderDragImpl :: evs).
      split; [rewrite Hj, Hjl, <- app_assoc; reflexivity|].
      split; [|discriminate].
      cbn [existsb is_post_mortem orb].
      destruct (existsb is_post_mortem evs).
      * right. left. split; [apply list_elem_of_further, list_elem_of_here|].
        split; [reflexivity|]. rewrite Hpm. exact Himg.
      * left. split; [apply list_elem_of_further, list_elem_of_here|].
        split; [reflexivity|]. exact Hpm.
    + exists [CallInitNetwork]. split; [exact Hjl|]. split; [|discriminate].
      right. right. split.
      { intros Hin. apply elem_of_cons in Hin as [Hin|Hin]; [discriminate|].
        apply elem_of_nil in Hin. exact Hin. }
      split; [reflexivity|]. split; [destruct (res wd1); exact Himg|].
      split; [reflexivity|]. exists e. destruct (res wd1). reflexivity.
  - destruct (_render_drag_impl lib a (render_stage1 a wd)) as [o wd2] eqn:Hrun.
    apply drag_impl_effects in Hrun
      as (_ & _ & Herr & _ & _ & _ & _ & _ & _ & evs & Hj & Hev & Hpm).
    cbn [snd]. unfold render_stage1 in *. reduce_world.
    exists (CallRenderDragImpl :: evs). split; [exact Hj|]. split; [|intros _; exact Herr].
    cbn [existsb is_post_mortem orb].
    destruct (existsb is_post_mortem evs).
    + right. left. split; [apply list_elem_of_here|]. split; [reflexivity|]. exact Hpm.
    + left. split; [apply list_elem_of_here|]. split; [reflexivity|]. exact Hpm.
Qed.

(** X14. [render] raises in one case only: the drag step ran to its end with
    [to_pil] set, so that the image it stored is a PIL image, which
    [to_cpu] cannot take; the exception is the [AttributeError] on its
    [shape].  In every other case [render] returns. *)
Theorem render_raises_exactly_on_pil_image lib a wd :
  ((exists e, (render lib a wd).1 = Raises e) <->
   (arg_to_pil a = true /\
    CallRenderDragImpl ∈ events_of (render lib a) wd /\
    existsb is_post_mortem (events_of (render lib a) wd) = false)) /\
  (forall e, (render lib a wd).1 = Raises e -> e = AttributeError "shape").
Proof.
  destruct (render_stage3_report lib a wd) as (evs & Hj & Hcases & _).
  assert (Hev : events_of (render lib a) wd = evs).
  { apply events_of_app. rewrite render_stages.
    destruct (render_finish_spec (render_stage3 lib a wd)) as (-> & _). exact Hj. }
  rewrite Hev, render_stages.
  pose proof (render_finish_image (render_stage3 lib a wd)) as Hfin.
  destruct Hcases as [(Hin & Hpm & px & Himg)|[(Hin & Hpm & Himg)|(Hin & Hpm & Himg & _)]];
    rewrite Himg in Hfin.
  - destruct (arg_to_pil a).
    + split; [|intros e He; rewrite Hfin in He; injection He as <-; reflexivity].
      split; [auto|]. intros _. eauto.
    + destruct Hfin as (r & Hr & _). rewrite Hr.
      split; [|discriminate]. split; [intros [e He]; discriminate He|].
      intros [Hpil _]. discriminate Hpil.
  - destruct Hfin as (r & Hr & _). rewrite Hr.
    split; [|discriminate]. split; [intros [e He]; discriminate He|].
    intros (_ & _ & Habs). rewrite Hpm in Habs. discriminate Habs.
  - destruct Hfin as (r & Hr & _). rewrite Hr.
    split; [|discriminate]. split; [intros [e He]; discriminate He|].
    intros (_ & Habs & _). contradiction.
Qed.

(** X15. A result that [render] returns has an image exactly when the drag
    step was entered and did not end in the debugger, and the image is then
    a numpy array; its error, when it has one, is a text and comes from
    [init_network].  An exception of the drag step itself is reported
    nowhere: the result then has no image and, unless [init_network] has
    left one, no error. *)
Theorem returned_result_reports_only_init_errors lib a wd r :
  (render lib a wd).1 = Returns r ->
  (is_Some (res_image r) <->
   CallRenderDragImpl ∈ events_of (render lib a) wd /\
   existsb is_post_mortem (events_of (render lib a) wd) = false) /\
  (forall img, res_image r = Some img -> exists px, img = NumpyImage px) /\
  (forall v, res_error r = Some v ->
     (exists msg, v = ErrorText msg) /\ needs_init (self wd) a = true).
Proof.
  destruct (render_stage3_report lib a wd) as (evs & Hj & Hcases & Hnoerr).
  assert (Hev : events_of (render lib a) wd = evs).
  { apply events_of_app. rewrite render_stages.
    destruct (render_finish_spec (render_stage3 lib a wd)) as (-> & _). exact Hj. }
  rewrite Hev, render_stages.
  pose proof (render_finish_image (render_stage3 lib a wd)) as Hfin.
  destruct (render_finish_spec (render_stage3 lib a wd)) as (_ & _ & Hres & _).
  intros Hr. destruct (Hres r Hr) as (_ & Herr & _).
  assert (Herror : forall v, res_error r = Some v ->
            (exists msg, v = ErrorText msg) /\ needs_init (self wd) a = true).
  { intros v Hv. rewrite Hv in Herr. split.
    - destruct (res_error (res (render_stage3 lib a wd))); [|discriminate Herr].
      injection Herr as ->. eauto.
    - destruct (needs_init (self wd) a); [reflexivity|].
      rewrite Hnoerr in Herr by reflexivity. discriminate Herr. }
  destruct Hcases as [(Hin & Hpm & px & Himg)|[(Hin & Hpm & Himg)|(Hin & Hpm & Himg & _)]];
    rewrite Himg in Hfin.
  - destruct (arg_to_pil a); [rewrite Hfin in Hr; discriminate Hr|].
    destruct Hfin as (r' & Hr' & Hi). rewrite Hr in Hr'. injection Hr' as <-.
    rewrite Hi. split; [split; eauto|]. split; [|exact Herror].
    intros img [= <-]. eauto.
  - destruct Hfin as (r' & Hr' & Hi). rewrite Hr in Hr'. injection Hr' as <-.
    rewrite Hi. split; [|split; [discriminate|exact Herror]].
    split; [intros [? Habs]; discriminate Habs|].
    intros [_ Habs]. rewrite Hpm in Habs. discriminate Habs.
  - destruct Hfin as (r' & Hr' & Hi). rewrite Hr in Hr'. injection Hr' as <-.
    rewrite Hi. split; [|split; [discriminate|exact Herror]].
    split; [intros [? Habs]; discriminate Habs|].
    intros [Habs _]. contradiction.
Qed.

Lemma returned_result_reports_only_init_errors_witness :
  let r := {| res_init_net := Some false; res_img_resolution := None;
              res_num_ws := None; res_has_noise := None;
              res_has_input_transform := None; res_error := None;
              res_points := Some [(3, 3)]; res_stop := Some true;
              res_image := None |} in
  (render demo_lib (with_targets [] first_call) ready_world).1 = Returns r /\
  existsb is_post_mortem
    (events_of (render demo_lib (with_targets [] first_call)) ready_world) = true /\
  (forall v, res_error r = Some v ->
     (exists msg, v = ErrorText msg) /\
     needs_init (self ready_world) (with_targets [] first_call) = true).
Proof.
  intros r. split; [reflexivity|]. split; [reflexivity|].
  apply (returned_result_reports_only_init_errors demo_lib
           (with_targets [] first_call) ready_world r).
  reflexivity.
Defined.

(** ** Rendering again *)

Lemma needs_init_args (s : Renderer) (a a' : Args) :
  arg_pkl a' = arg_pkl a -> arg_w0_seed a' = arg_w0_seed a ->
  arg_w_plus a' = arg_w_plus a ->
  needs_init s a = false -> needs_init s a' = arg_reset_w a'.
Proof.
  unfold needs_init. intros -> -> -> Hno.
  apply orb_false_elim in Hno as [-> _]. reflexivity.
Qed.

Lemma needs_init_ext (s s' : Renderer) (a : Args) :
  G s' = G s -> pkl s' = pkl s -> w0_seed s' = w0_seed s -> w_plus s' = w_plus s ->
  needs_init s' a = needs_init s a.
Proof. unfold needs_init. intros -> -> -> ->. reflexivity. Qed.

(** The session attributes that decide [needs_init], after a [try] block
    that has entered the drag step. *)
Lemma render_stage3_session lib a wd :
  CallRenderDragImpl ∈ drop (length (journal wd)) (journal (render_stage3 lib a wd)) ->
  forall a', arg_pkl a' = arg_pkl a -> arg_w0_seed a' = arg_w0_seed a ->
    arg_w_plus a' = arg_w_plus a ->
    needs_init (self (render_stage3 lib a wd)) a' = arg_reset_w a'.
Proof.
  unfold render_stage3, render_stage2.
  destruct (needs_init (self wd) a) eqn:Hneed.
  - pose proof (init_network_journal lib a (render_stage1 a wd)) as (Hjl & _).
    pose proof (init_network_post lib a (render_stage1 a wd)) as Hpost.
    destruct (init_network lib a (render_stage1 a wd)) as [[[]|e] wd1];
      cbn [fst snd] in Hjl, Hpost; unfold render_stage1 in Hjl; reduce_world.
    + intros _ a' Hp Hz Hb.
      destruct (Hpost eq_refl) as (g & l & latent & Hg & Hpk & Hsd & Hwp & _).
      destruct (_render_drag_impl lib a wd1) as [o wd2] eqn:Hrun.
      apply drag_impl_effects in Hrun
        as (_ & _ & _ & Hg' & Hp' & Hz' & Hb' & _).
      cbn [snd]. apply (needs_init_set _ a' g); congruence.
    + rewrite Hjl, drop_app_length. intros Hin.
      apply elem_of_cons in Hin as [Hin|Hin]; [discriminate|].
      apply elem_of_nil in Hin. contradiction.
  - intros _ a' Hp Hz Hb.
    destruct (_render_drag_impl lib a (render_stage1 a wd)) as [o wd2] eqn:Hrun.
    apply drag_impl_effects in Hrun
      as (_ & _ & _ & Hg' & Hp' & Hz' & Hb' & _).
    cbn [snd]. apply (needs_init_args _ a a' Hp Hz Hb).
    rewrite <- Hneed. unfold render_stage1 in *. reduce_world.
    rewrite <- (needs_init_timing (self wd) a true).
    apply needs_init_ext; assumption.
Qed.

(** X16. Once a [render] has entered the drag step, a following [render] for
    the same pickle, seed and [w_plus] flag reinitializes the session
    exactly when it asks for it with [reset_w]: the latent code that the
    drag steps have moved is kept from one call to the next. *)
Theorem render_again_keeps_session lib a a' wd :
  CallRenderDragImpl ∈ events_of (render lib a) wd ->
  arg_pkl a' = arg_pkl a -> arg_w0_seed a' = arg_w0_seed a ->
  arg_w_plus a' = arg_w_plus a ->
  needs_init (self (render lib a wd).2) a' = arg_reset_w a' /\
  (CallInitNetwork ∈ events_of (render lib a') (render lib a wd).2 <->
   arg_reset_w a' = true).
Proof.
  unfold events_of at 1. rewrite render_stages.
  destruct (render_finish_spec (render_stage3 lib a wd)) as (Hjl & Hself & _).
  rewrite Hjl, Hself. intros Hin Hp Hz Hb.
  pose proof (render_stage3_session lib a wd Hin a' Hp Hz Hb) as Hneed.
  split; [exact Hneed|].
  set (wd1 := render_stage3 lib a wd) in *.
  set (wd2 := (render_finish wd1).2) in *.
  assert (Hs2 : self wd2 = self wd1) by exact Hself.
  destruct (render_stage3_spec lib a' wd2) as (_ & (evs & Hevs & Hnot) & _).
  rewrite Hs2, Hneed in Hevs.
  assert (Hev : events_of (render lib a') wd2
                = (if arg_reset_w a' then [CallInitNetwork] else []) ++ evs).
  { apply events_of_app. rewrite render_stages.
    destruct (render_finish_spec (render_stage3 lib a' wd2)) as (-> & _).
    exact Hevs. }
  rewrite Hev. destruct (arg_reset_w a'); simpl.
  - split; [reflexivity|]. intros _. apply list_elem_of_here.
  - split; [intros Habs; contradiction|discriminate].
Qed.

Lemma render_again_keeps_session_witness :
  CallRenderDragImpl ∈ events_of (render demo_lib first_call) fresh_world /\
  needs_init (self (render demo_lib first_call fresh_world).2) on_target_call
  = false.
Proof.
  assert (Hin : CallRenderDragImpl ∈ events_of (render demo_lib first_call) fresh_world).
  { vm_compute. apply list_elem_of_further, list_elem_of_here. }
  split; [exact Hin|].
  apply (render_again_keeps_session demo_lib first_call on_target_call fresh_world Hin);
    reflexivity.
Defined.

(** X17. A failed switch to another pickle is reported once.  [init_network]
    has stored the failing name before [get_network] raised, so a second
    [render] with the same arguments finds nothing to initialize: it enters
    the drag step with the network that was loaded before, and the result
    it returns says [init_net = False] and carries no error. *)
Theorem failed_switch_is_reported_once lib a wd e g :
  G (self wd) = Some g ->
  w0_seed (self wd) = Some (arg_w0_seed a) ->
  w_plus (self wd) = Some (arg_w_plus a) ->
  arg_reset_w a = false ->
  (get_network lib (arg_pkl a) "G_ema" wd).1 = Raises e ->
  let wd1 := (render lib a wd).2 in
  G (self wd1) = Some g /\ needs_init (self wd1) a = false /\
  (CallInitNetwork ∉ events_of (render lib a) wd1) /\
  CallRenderDragImpl ∈ events_of (render lib a) wd1 /\
  (forall r, (render lib a wd1).1 = Returns r ->
     res_init_net r = Some false /\ res_error r = None).
Proof.
  intros Hg Hz Hb Hreset Hload. cbv zeta.
  assert (Hfirst : G (self (render lib a wd).2) = Some g /\
                   needs_init (self (render lib a wd).2) a = false).
  { rewrite render_stages.
    destruct (render_finish_spec (render_stage3 lib a wd)) as (_ & -> & _).
    destruct (needs_init (self wd) a) eqn:Hneed.
    - unfold render_stage3, render_stage2. rewrite Hneed.
      destruct (init_network_load_failure lib a wd true
                  (set_res_init_net (Some true) EasyDict) (journal wd) e Hload)
        as (Hout & _ & _ & Hsess & Hpkl).
      unfold render_stage1. rewrite Hneed.
      destruct (init_network lib a _) as [o wd1]. cbn [fst snd] in *. subst o.
      reduce_world.
      destruct Hsess as (HG & HZ & HB & _).
      split; [congruence|]. rewrite <- Hreset.
      apply (needs_init_set _ a g); congruence.
    - destruct (render_stage3_spec lib a wd) as (_ & _ & _ & Hkeep).
      destruct (Hkeep Hneed) as (HG & HP & HZ & HB & _).
      split; [congruence|]. rewrite <- Hneed. apply needs_init_ext; assumption. }
  destruct Hfirst as [HG Hneed1].
  set (wd1 := (render lib a wd).2) in *.
  split; [exact HG|]. split; [exact Hneed1|].
  destruct (render_stage3_report lib a wd1) as (evs & Hj & Hcases & Hnoerr).
  assert (Hev : events_of (render lib a) wd1 = evs).
  { apply events_of_app. rewrite render_stages.
    destruct (render_finish_spec (render_stage3 lib a wd1)) as (-> & _). exact Hj. }
  destruct (render_stage3_spec lib a wd1) as (Hinit & (evs' & Hevs' & Hnot) & _).
  rewrite Hneed1 in Hevs'. rewrite Hj in Hevs'. apply app_inv_head in Hevs'.
  simpl in Hevs'. subst evs'. rewrite Hev.
  split; [exact Hnot|]. split.
  - destruct Hcases as [(Hin & _)|[(Hin & _)|(_ & _ & _ & Habs & _)]];
      [exact Hin|exact Hin|]. rewrite Hneed1 in Habs. discriminate Habs.
  - intros r Hr. rewrite render_stages in Hr.
    destruct (render_finish_spec (render_stage3 lib a wd1)) as (_ & _ & Hres & _).
    destruct (Hres r Hr) as (Hi & Herr & _).
    rewrite Hi, Hinit, Hneed1. split; [reflexivity|].
    rewrite Herr, (Hnoerr Hneed1). reflexivity.
Qed.

Lemma failed_switch_is_reported_once_witness :
  let a := with_pkl "stylegan2-missing.pkl" first_call in
  let wd1 := (render demo_lib a ready_world).2 in
  G (self wd1) = Some (demo_generator None) /\ needs_init (self wd1) a = false /\
  (CallInitNetwork ∉ events_of (render demo_lib a) wd1) /\
  CallRenderDragImpl ∈ events_of (render demo_lib a) wd1 /\
  (forall r, (render demo_lib a wd1).1 = Returns r ->
     res_init_net r = Some false /\ res_error r = None).
Proof.
  intros a.
  apply (failed_switch_is_reported_once demo_lib a ready_world
           (LoadError "stylegan2-missing.pkl") (demo_generator None));
    reflexivity.
Defined.

(** ** The trace of a drag call *)

(** The four traces of [_render_drag_impl] after its entry: the debugger
    before or after the synthesis, the synthesis alone, and the synthesis
    followed by one optimizer update. *)
Lemma drag_impl_trace lib a wd :
  let wd' := (_render_drag_impl lib a wd).2 in
  exists evs,
    journal wd' = journal wd ++ CallRenderDragImpl :: evs /\
    ((exists e, evs = [PostMortem e]) \/
     (exists ws e, evs = [CallSynthesis ws; PostMortem e]) \/
     (exists ws, evs = [CallSynthesis ws]) \/
     (exists ws, evs = [CallSynthesis ws; ZeroGrad; Backward; OptimStep] /\
        arg_is_drag a = true /\ res_stop (res wd') = Some false)) /\
    ((OptimStep ∉ evs) ->
     w (self wd') = w (self wd) /\ w_optim (self wd') = w_optim (self wd)).
Proof.
  cbv zeta. open_world wd. unfold_drag. unfold_monad.
  run.
  all: rewrite <- ?app_assoc; eexists; (split; [reflexivity|]).
  all: split;
    [ first [ left; eexists; reflexivity
            | right; left; eexists _, _; reflexivity
            | right; right; left; eexists; reflexivity
            | right; right; right; eexists; split; [reflexivity|];
              split; reflexivity ]
    | first [ intros _; split; reflexivity
            | intros Hn; exfalso; apply Hn;
              apply list_elem_of_further, list_elem_of_further,
                list_elem_of_further, list_elem_of_here ] ].
Qed.

(** A drag step that does not end in the debugger has found or collected
    its references, tracked every point and tested every point against its
    target. *)
Lemma drag_impl_tracking lib a wd :
  arg_is_drag a = true ->
  let wd' := (_render_drag_impl lib a wd).2 in
  (exists e jl, journal wd' = jl ++ [PostMortem e]) \/
  exists g raw refs tracked stop,
    G (self wd) = Some g /\
    feat_refs (self wd') = Some (Some refs) /\
    ((reset_requested (self wd) a = false /\ feat_refs (self wd) = Some (Some refs)) \/
     ((reset_requested (self wd) a = true \/ feat_refs (self wd) = Some None) /\
      collect_refs (interpolate lib raw (img_resolution g) (img_resolution g))
        (img_resolution g) (img_resolution g) (arg_points a) [] = (refs, None))) /\
    track_points (linalg_norm lib) (interpolate lib raw (img_resolution g) (img_resolution g))
      (img_resolution g) (img_resolution g) (arg_r2 a) refs (arg_points a)
    = (tracked, None) /\
    points (self wd') = Some tracked /\ res_points (res wd') = Some tracked /\
    motion_stop (img_resolution g) tracked (arg_targets a) = (stop, None) /\
    res_stop (res wd') = Some stop.
Proof.
  intros Hdrag. cbv zeta. open_world wd.
  unfold_drag. unfold_monad. rewrite Hdrag.
  run.
  all: first
    [ left; eexists _, _; reflexivity
    | right; eexists _, _, _, _, _;
      split; [reflexivity|]; split; [reflexivity|];
      split; [first [ left; split; reflexivity
                    | right; split;
                      [first [left; reflexivity | right; reflexivity]|eassumption] ]|];
      split; [eassumption|];
      split; [reflexivity|]; split; [reflexivity|];
      split; [eassumption|reflexivity] ].
Qed.

Lemma track_points_length (norm : Vec -> Vec -> Z) (fm : FeatureMap) (h w r2 : Z)
    (refs : list Vec)
    (pts tracked : list Point) e :
  track_points norm fm h w r2 refs pts = (tracked, e) -> length tracked = length pts.
Proof.
  intros Hrun. change tracked with (tracked, e).1. rewrite <- Hrun.
  apply track_loop_length.
Qed.

(** With references stored and as many points as before, a call without
    [reset] keeps the references, whatever way it ends. *)
Lemma drag_impl_keeps_cache lib a wd refs0 pts0 :
  feat_refs (self wd) = Some (Some refs0) -> points (self wd) = Some pts0 ->
  length (arg_points a) = length pts0 -> arg_reset a = false ->
  let wd' := (_render_drag_impl lib a wd).2 in
  feat_refs (self wd') = Some (Some refs0) /\
  exists pts1, points (self wd') = Some pts1 /\ length pts1 = length pts0.
Proof.
  intros Hrefs Hpts Hlen Hreset. cbv zeta.
  destruct wd as [s r jl]. destruct s. destruct r. reduce_world. subst.
  unfold_drag. unfold reset_requested. unfold_monad. reduce_world.
  rewrite Hreset.
  repeat (reduce_world;
          rewrite ?(bool_decide_eq_false_2 (length (arg_points a) ≠ length pts0))
            by (intros Hne; apply Hne; exact Hlen);
          try case_innermost).
  all: split; [reflexivity|]; eexists; split; [reflexivity|];
    first [ reflexivity | exact Hlen
          | erewrite track_points_length by eassumption; exact Hlen ].
Qed.

(** A call that is no drag step stores the points it was given and keeps
    the references, unless it resets them. *)
Lemma plain_call_cache lib a wd :
  arg_is_drag a = false ->
  let wd' := (_render_drag_impl lib a wd).2 in
  (exists e jl, journal wd' = jl ++ [PostMortem e]) \/
  (points (self wd') = Some (arg_points a) /\
   feat_refs (self wd')
   = if reset_requested (self wd) a then Some None else feat_refs (self wd)).
Proof.
  intros Hdrag. cbv zeta. open_world wd.
  unfold_drag. unfold_monad. rewrite Hdrag.
  run.
  all: first [ left; eexists _, _; reflexivity | right; split; reflexivity ].
Qed.

Ltac not_in_events Hin :=
  repeat (apply elem_of_cons in Hin as [Hin|Hin]; [discriminate Hin|]);
  apply elem_of_nil in Hin; exact Hin.

(** A call that ends in the debugger: nothing was updated and no image was
    stored. *)
Lemma drag_impl_debugger lib a wd e jl0 :
  journal (_render_drag_impl lib a wd).2 = jl0 ++ [PostMortem e] ->
  let wd' := (_render_drag_impl lib a wd).2 in
  existsb is_post_mortem (events_of (_render_drag_impl lib a) wd) = true /\
  (OptimStep ∉ events_of (_render_drag_impl lib a) wd) /\
  w (self wd') = w (self wd) /\ w_optim (self wd') = w_optim (self wd) /\
  res_image (res wd') = res_image (res wd).
Proof.
  intros Hend. cbv zeta.
  destruct (drag_impl_trace lib a wd) as (evs & Hj & Hshape & Hkeep).
  rewrite (events_of_app _ wd _ Hj).
  destruct (_render_drag_impl lib a wd) as [o wd'] eqn:Hrun. cbn [snd] in *.
  apply drag_impl_effects in Hrun
    as (_ & _ & _ & _ & _ & _ & _ & _ & _ & evs0 & Hj0 & _ & Hpm).
  rewrite Hj in Hj0. apply app_inv_head in Hj0. injection Hj0 as <-.
  rewrite Hj in Hend. apply (f_equal last) in Hend.
  rewrite !last_app in Hend.
  assert (Hnot : (OptimStep ∉ evs) /\ existsb is_post_mortem evs = true).
  { destruct Hshape as [(x & ->)|[(ws & x & ->)|[(ws & ->)|(ws & -> & _)]]];
      try discriminate Hend; (split; [intros Hin; not_in_events Hin|reflexivity]). }
  destruct Hnot as [Hnot Hdbg]. rewrite Hdbg in Hpm.
  split; [exact Hdbg|]. split.
  { intros Hin. apply elem_of_cons in Hin as [Hin|Hin]; [discriminate Hin|]. auto. }
  destruct (Hkeep Hnot) as [Hw Ho]. auto.
Qed.

(** X18. After its entry a call of [_render_drag_impl] leaves one of four
    traces: the debugger at once; the synthesis and then the debugger; the
    synthesis alone; the synthesis followed by one [zero_grad], one
    [backward] and one optimizer step, in this order, which happens only
    in a drag step that has cleared the stop flag.  The network is thus run
    at most once and the optimizer stepped at most once in a call, and a
    call without optimizer step leaves the latent code and the optimizer as
    they were. *)
Theorem drag_call_leaves_one_of_four_traces lib a wd :
  let wd' := (_render_drag_impl lib a wd).2 in
  let evs := events_of (_render_drag_impl lib a) wd in
  ((exists e, evs = [CallRenderDragImpl; PostMortem e]) \/
   (exists ws e, evs = [CallRenderDragImpl; CallSynthesis ws; PostMortem e]) \/
   (exists ws, evs = [CallRenderDragImpl; CallSynthesis ws]) \/
   (exists ws, evs = [CallRenderDragImpl; CallSynthesis ws; ZeroGrad; Backward; OptimStep] /\
      arg_is_drag a = true /\ res_stop (res wd') = Some false)) /\
  ((OptimStep ∉ evs) ->
   w (self wd') = w (self wd) /\ w_optim (self wd') = w_optim (self wd)).
Proof.
  cbv zeta.
  destruct (drag_impl_trace lib a wd) as (evs & Hj & Hshape & Hkeep).
  rewrite (events_of_app _ wd _ Hj). split.
  - destruct Hshape as [(x & ->)|[(ws & x & ->)|[(ws & ->)|(ws & -> & Hd & Hs)]]];
      eauto 8.
  - intros Hnot. apply Hkeep. intros Hin. apply Hnot.
    apply list_elem_of_further, Hin.
Qed.

(** X19. A drag step with fewer targets than points ends in the debugger,
    whatever else the call is given: the optimizer is not stepped, the
    latent code and the optimizer are left as they were, and no image is
    stored in the result. *)
Theorem missing_target_ends_in_debugger lib a wd :
  arg_is_drag a = true ->
  (length (arg_targets a) < length (arg_points a))%nat ->
  let wd' := (_render_drag_impl lib a wd).2 in
  existsb is_post_mortem (events_of (_render_drag_impl lib a) wd) = true /\
  (OptimStep ∉ events_of (_render_drag_impl lib a) wd) /\
  w (self wd') = w (self wd) /\ w_optim (self wd') = w_optim (self wd) /\
  res_image (res wd') = res_image (res wd).
Proof.
  intros Hdrag Hshort.
  destruct (drag_impl_tracking lib a wd Hdrag)
    as [(e & jl0 & Hend)|(g & raw & refs & tracked & stop & _ & _ & _ & Htrack & _ & _ & Hstop & _)].
  - apply (drag_impl_debugger lib a wd e jl0 Hend).
  - exfalso. apply track_points_length in Htrack.
    apply stop_loop_complete in Hstop; simpl in *; lia.
Qed.

Lemma missing_target_ends_in_debugger_witness :
  let a := with_targets [] first_call in
  let wd' := (_render_drag_impl demo_lib a ready_session).2 in
  existsb is_post_mortem (events_of (_render_drag_impl demo_lib a) ready_session) = true /\
  (OptimStep ∉ events_of (_render_drag_impl demo_lib a) ready_session) /\
  w (self wd') = w (self ready_session) /\
  w_optim (self wd') = w_optim (self ready_session) /\
  res_image (res wd') = res_image (res ready_session).
Proof.
  intros a. apply (missing_target_ends_in_debugger demo_lib a ready_session).
  - reflexivity.
  - simpl. lia.
Defined.

Lemma track_loop_short (norm : Vec -> Vec -> Z) (fm : FeatureMap) (h w r : Z)
    (refs : list Vec) (n : nat) :
  forall (j : nat) (pts : list Point),
  (length refs < length pts)%nat -> (j <= length refs)%nat ->
  (length pts <= j + n)%nat ->
  exists e, (track_loop norm fm h w r refs n j pts).2 = Some e.
Proof.
  induction n as [|n IH]; intros j pts Hshort Hj Hn; simpl.
  - lia.
  - destruct (pts !! j) as [pt|] eqn:Hpt.
    + destruct (refs !! j) as [ref|] eqn:Href; [|simpl; eauto].
      apply lookup_lt_Some in Href.
      destruct (track_point norm fm h w r ref pt); [|simpl; eauto].
      apply IH; rewrite ?length_insert; lia.
    + apply lookup_ge_None in Hpt. lia.
Qed.

(** X20. When the stored list of references is shorter than the list of
    points (what a failed collection leaves behind), a drag step with the
    same number of points and without [reset] ends in the debugger: no
    image is stored and the optimizer is not stepped.  The short list and
    the number of stored points are kept, so that every following drag
    step ends the same way until a reset or another number of points. *)
Theorem short_references_block_dragging lib a wd refs0 pts0 :
  arg_is_drag a = true -> arg_reset a = false ->
  feat_refs (self wd) = Some (Some refs0) -> points (self wd) = Some pts0 ->
  length (arg_points a) = length pts0 -> (length refs0 < length pts0)%nat ->
  let wd' := (_render_drag_impl lib a wd).2 in
  existsb is_post_mortem (events_of (_render_drag_impl lib a) wd) = true /\
  (OptimStep ∉ events_of (_render_drag_impl lib a) wd) /\
  res_image (res wd') = res_image (res wd) /\
  feat_refs (self wd') = Some (Some refs0) /\
  exists pts1, points (self wd') = Some pts1 /\ length pts1 = length pts0.
Proof.
  intros Hdrag Hreset Hrefs Hpts Hlen Hshort. cbv zeta.
  destruct (drag_impl_keeps_cache lib a wd refs0 pts0 Hrefs Hpts Hlen Hreset)
    as [Hkeep Hpoints].
  assert (Hno : reset_requested (self wd) a = false).
  { unfold reset_requested. rewrite Hpts, Hreset.
    rewrite bool_decide_eq_false_2; [reflexivity|].
    intros Hne. apply Hne, Hlen. }
  destruct (drag_impl_tracking lib a wd Hdrag)
    as [(e & jl0 & Hend)|(g & raw & refs & tracked & stop & _ & _ & Hsrc & Htrack & _)].
  - destruct (drag_impl_debugger lib a wd e jl0 Hend) as (Hd & Hn & _ & _ & Hi).
    auto.
  - exfalso. destruct Hsrc as [[_ Hsame]|[[Hyes|Hnone] _]].
    + rewrite Hrefs in Hsame. injection Hsame as <-.
      destruct (track_loop_short (linalg_norm lib)
                  (interpolate lib raw (img_resolution g) (img_resolution g))
                  (img_resolution g) (img_resolution g)
                  (scaled_radius (arg_r2 a) (img_resolution g)) refs0
                  (length (arg_points a)) 0 (arg_points a)) as [x Hx]; try lia.
      unfold track_points in Htrack. rewrite Htrack in Hx. discriminate Hx.
    + rewrite Hno in Hyes. discriminate Hyes.
    + rewrite Hrefs in Hnone. discriminate Hnone.
Qed.

Lemma short_references_block_dragging_witness :
  feat_refs (self stuck_session) = Some (Some [[51]]) /\
  points (self stuck_session) = Some [(3, 3); (16, 5)] /\
  let wd' := (_render_drag_impl demo_lib stray_call stuck_session).2 in
  existsb is_post_mortem (events_of (_render_drag_impl demo_lib stray_call) stuck_session)
  = true /\
  (OptimStep ∉ events_of (_render_drag_impl demo_lib stray_call) stuck_session) /\
  res_image (res wd') = res_image (res stuck_session) /\
  feat_refs (self wd') = Some (Some [[51]]) /\
  exists pts1, points (self wd') = Some pts1 /\ length pts1 = 2%nat.
Proof.
  assert (Hrefs : feat_refs (self stuck_session) = Some (Some [[51]]))
    by (vm_compute; reflexivity).
  assert (Hpts : points (self stuck_session) = Some [(3, 3); (16, 5)])
    by (vm_compute; reflexivity).
  split; [exact Hrefs|]. split; [exact Hpts|].
  apply (short_references_block_dragging demo_lib stray_call stuck_session
           [[51]] [(3, 3); (16, 5)] eq_refl eq_refl Hrefs Hpts eq_refl).
  simpl. lia.
Defined.

(** ** References and points stay aligned *)

Lemma collect_refs_length (fm : FeatureMap) (h w : Z) (pts : list Point) :
  forall acc refs,
  collect_refs fm h w pts acc = (refs, None) ->
  length refs = (length acc + length pts)%nat.
Proof.
  induction pts as [|p pts IH]; intros acc refs; simpl.
  - intros [= <-]. lia.
  - destruct (feature_at fm h w p.1 p.2); [|discriminate].
    intros Hrun. apply IH in Hrun. rewrite Hrun, length_app. simpl. lia.
Qed.

Lemma reset_requested_false_length (s : Renderer) (a : Args) (pts : list Point) :
  reset_requested s a = false -> points s = Some pts ->
  length (arg_points a) = length pts.
Proof.
  unfold reset_requested. intros Hno Hp. rewrite Hp in Hno.
  destruct (decide (length (arg_points a) = length pts)) as [Heq|Hne]; [exact Heq|].
  rewrite bool_decide_eq_true_2 in Hno by exact Hne. discriminate Hno.
Qed.

(** X21. The list of references has one entry for each stored point, and a
    call of [_render_drag_impl] that does not end in the debugger keeps it
    so: the index [j] that the tracker uses for the point is always an
    index of the list. *)
Theorem references_stay_aligned lib a wd :
  refs_match_points (self wd) ->
  existsb is_post_mortem (events_of (_render_drag_impl lib a) wd) = false ->
  refs_match_points (self (_render_drag_impl lib a wd).2).
Proof.
  intros Hinv Hquiet.
  assert (Hend : ~ exists e jl0,
            journal (_render_drag_impl lib a wd).2 = jl0 ++ [PostMortem e]).
  { intros (e & jl0 & Hend).
    destruct (drag_impl_debugger lib a wd e jl0 Hend) as (Hd & _).
    rewrite Hd in Hquiet. discriminate Hquiet. }
  destruct (arg_is_drag a) eqn:Hdrag.
  - destruct (drag_impl_tracking lib a wd Hdrag)
      as [Habs|(g & raw & refs & tracked & stop & _ & Hrefs & Hsrc & Htrack & Hpts & _)];
      [contradiction|].
    intros refs' Hrefs'. rewrite Hrefs in Hrefs'. injection Hrefs' as <-.
    exists tracked. split; [exact Hpts|].
    apply track_points_length in Htrack. rewrite Htrack.
    destruct Hsrc as [[Hno Hsame]|[_ Hcollect]].
    + destruct (Hinv refs Hsame) as (pts & Hp & Hl).
      rewrite Hl. symmetry. apply (reset_requested_false_length _ _ _ Hno Hp).
    + apply collect_refs_length in Hcollect. exact Hcollect.
  - destruct (plain_call_cache lib a wd Hdrag) as [Habs|[Hpts Hrefs]];
      [contradiction|].
    intros refs' Hrefs'. rewrite Hrefs in Hrefs'.
    destruct (reset_requested (self wd) a) eqn:Hno; [discriminate Hrefs'|].
    destruct (Hinv refs' Hrefs') as (pts & Hp & Hl).
    exists (arg_points a). split; [exact Hpts|].
    rewrite Hl. symmetry. apply (reset_requested_false_length _ _ _ Hno Hp).
Qed.

Lemma references_stay_aligned_witness :
  refs_match_points (self (_render_drag_impl demo_lib first_call ready_session).2).
Proof.
  apply (references_stay_aligned demo_lib first_call ready_session).
  - intros refs Hrefs. exists [(3, 3)]. split; [reflexivity|].
    vm_compute in Hrefs. injection Hrefs as <-. reflexivity.
  - vm_compute. reflexivity.
Defined.

(** ** The mask and the finished step *)

(** X22. A mask is used only when its least entry is 0 and its greatest
    entry is 1.  Any other mask (all ones, all zeros, not binary) is
    ignored without notice: the call does what it does without a mask. *)
Theorem unqualified_mask_is_ignored lib a wd (m : Tensor) :
  arg_mask a = Some m ->
  (mask_min lib m =? 0) && (mask_max lib m =? 1) = false ->
  _render_drag_impl lib a wd = _render_drag_impl lib (with_mask None a) wd.
Proof.
  destruct a as [p z b rw nm psi cut tr r pts tg mk lm reg fi r1 r2 db nrm dr rs pil].
  cbn [arg_mask with_mask]. intros -> Hq.
  unfold_drag. unfold reset_requested.
  cbn [arg_pkl arg_w0_seed arg_w_plus arg_reset_w arg_noise_mode arg_trunc_psi
       arg_trunc_cutoff arg_input_transform arg_lr arg_points arg_targets
       arg_mask arg_lambda_mask arg_reg arg_feature_idx arg_r1 arg_r2
       arg_img_scale_db arg_img_normalize arg_is_drag arg_reset arg_to_pil].
  rewrite Hq. reflexivity.
Qed.

Lemma unqualified_mask_is_ignored_witness :
  _render_drag_impl masking_lib
    (with_mask (Some [1; 1; 1; 1]) first_call) ready_session
  = _render_drag_impl masking_lib
      (with_mask None (with_mask (Some [1; 1; 1; 1]) first_call)) ready_session.
Proof.
  apply (unqualified_mask_is_ignored masking_lib
           (with_mask (Some [1; 1; 1; 1]) first_call) ready_session [1; 1; 1; 1]);
    vm_compute; reflexivity.
Defined.

(** X23. A drag step that does not end in the debugger has tracked every
    point and tested every point against its target: the tracker ran to
    its end on the stored or newly collected references, the relocated
    points are stored in the renderer and reported in the result, the stop
    flag is the one the convergence loop computes on them, there is a
    target for every point, and the image is stored. *)
Theorem finished_drag_step_reports_tracked_points lib a wd :
  arg_is_drag a = true ->
  existsb is_post_mortem (events_of (_render_drag_impl lib a) wd) = false ->
  let wd' := (_render_drag_impl lib a wd).2 in
  exists g raw refs tracked stop,
    G (self wd) = Some g /\
    feat_refs (self wd') = Some (Some refs) /\
    track_points (linalg_norm lib) (interpolate lib raw (img_resolution g) (img_resolution g))
      (img_resolution g) (img_resolution g) (arg_r2 a) refs (arg_points a)
    = (tracked, None) /\
    length tracked = length (arg_points a) /\
    points (self wd') = Some tracked /\ res_points (res wd') = Some tracked /\
    motion_stop (img_resolution g) tracked (arg_targets a) = (stop, None) /\
    res_stop (res wd') = Some stop /\
    (length (arg_points a) <= length (arg_targets a))%nat /\
    exists px, res_image (res wd')
               = Some (if arg_to_pil a then PilImage px else TensorImage px).
Proof.
  intros Hdrag Hquiet. cbv zeta.
  destruct (drag_impl_tracking lib a wd Hdrag)
    as [(e & jl0 & Hend)
       |(g & raw & refs & tracked & stop & Hg & Hrefs & _ & Htrack & Hpts & Hres & Hstop & Hflag)].
  { destruct (drag_impl_debugger lib a wd e jl0 Hend) as (Hd & _).
    rewrite Hd in Hquiet. discriminate Hquiet. }
  exists g, raw, refs, tracked, stop.
  pose proof (track_points_length _ _ _ _ _ _ _ _ _ Htrack) as Hlen.
  split; [exact Hg|]. split; [exact Hrefs|]. split; [exact Htrack|].
  split; [exact Hlen|]. split; [exact Hpts|]. split; [exact Hres|].
  split; [exact Hstop|]. split; [exact Hflag|]. split.
  - apply stop_loop_complete in Hstop; simpl in *; lia.
  - destruct (drag_impl_trace lib a wd) as (evs & Hj & _).
    rewrite (events_of_app _ wd _ Hj) in Hquiet.
    destruct (_render_drag_impl lib a wd) as [o wd'] eqn:Hrun. cbn [snd] in *.
    apply drag_impl_effects in Hrun
      as (_ & _ & _ & _ & _ & _ & _ & _ & _ & evs0 & Hj0 & _ & Hpm).
    rewrite Hj in Hj0. apply app_inv_head in Hj0. injection Hj0 as <-.
    cbn [existsb is_post_mortem orb] in Hquiet. rewrite Hquiet in Hpm. exact Hpm.
Qed.

Lemma finished_drag_step_reports_tracked_points_witness :
  let wd' := (_render_drag_impl demo_lib first_call ready_session).2 in
  exists g raw refs tracked stop,
    G (self ready_session) = Some g /\
    feat_refs (self wd') = Some (Some refs) /\
    track_points (linalg_norm demo_lib) (interpolate demo_lib raw (img_resolution g) (img_resolution g))
      (img_resolution g) (img_resolution g) (arg_r2 first_call) refs
      (arg_points first_call)
    = (tracked, None) /\
    length tracked = length (arg_points first_call) /\
    points (self wd') = Some tracked /\ res_points (res wd') = Some tracked /\
    motion_stop (img_resolution g) tracked (arg_targets first_call) = (stop, None) /\
    res_stop (res wd') = Some stop /\
    (length (arg_points first_call) <= length (arg_targets first_call))%nat /\
    exists px, res_image (res wd')
               = Some (if arg_to_pil first_call then PilImage px else TensorImage px).
Proof.
  apply (finished_drag_step_reports_tracked_points demo_lib first_call ready_session);
    vm_compute; reflexivity.
Defined.
